(** * financial_agent: classification, scoring and ranking of observations

    A shallow embedding of the decision core of [financial_agent.py]
    ([normalize], [classify_impact], [signal_score], [assess]) together
    with the properties its specification states about it, followed by
    its report ([render_report]), its loader ([load_observations], from
    the parsed JSON value on) and the store of [todo_app.py]
    ([TodoStore]), with properties read off their code.

    Modelling choices, all taken from the source:
    - a Python [str] is a [string]; a character is one of the 256 code
      points an [ascii] holds (Latin-1), text outside that range is not
      modelled;
    - a Python [int] is a [Z];
    - [POSITIVE_CUES], [NEGATIVE_CUES] and [HIGH_SIGNAL_CUES] are Python
      [set] literals.  A set has members but no iteration order of its
      own: the interpreter fixes one when the module is loaded (it depends
      on the string hashes of that process).  The list comprehensions of
      the source visit the cues in that order, so it is an explicit
      component of the model, [iteration];
    - [sorted(..., key=..., reverse=True)] is the library's stable sort in
      descending key order: elements with equal keys keep their relative
      input order. *)

From Stdlib Require Import String Ascii List ZArith NArith Lia Bool.
From Stdlib Require Import Permutation Sorted DecimalString.
Import ListNotations.

Local Open Scope string_scope.

(* ================================================================== *)
(** ** Text primitives: [str.strip], [str.lower], [in], [str.join]     *)
(* ================================================================== *)

Module Text.

(** [str.isspace] on the code points below 256: TAB..CR, FS..US, SPACE,
    NEL (0x85) and NBSP (0xA0). *)
Definition is_space (c : ascii) : bool :=
  let n := N_of_ascii c in
  (((9 <=? n) && (n <=? 13)) || ((28 <=? n) && (n <=? 32))
   || (n =? 133) || (n =? 160))%N.

(** [str.lower] on one code point below 256: A..Z, and the Latin-1 capitals
    0xC0..0xDE without the multiplication sign 0xD7. *)
Definition lower_char (c : ascii) : ascii :=
  let n := N_of_ascii c in
  if (((65 <=? n) && (n <=? 90))
      || ((192 <=? n) && (n <=? 222) && negb (n =? 215)))%N
  then ascii_of_N (n + 32)
  else c.

Fixpoint lower (s : string) : string :=
  match s with
  | EmptyString => EmptyString
  | String c rest => String (lower_char c) (lower rest)
  end.

Fixpoint lstrip (s : string) : string :=
  match s with
  | EmptyString => EmptyString
  | String c rest => if is_space c then lstrip rest else s
  end.

Fixpoint rstrip (s : string) : string :=
  match s with
  | EmptyString => EmptyString
  | String c rest =>
      match rstrip rest with
      | EmptyString => if is_space c then EmptyString else String c EmptyString
      | kept => String c kept
      end
  end.

Definition strip (s : string) : string := rstrip (lstrip s).

(** [needle in text]: [needle] is a prefix of some suffix of [text]. *)
Fixpoint contains (needle text : string) : bool :=
  String.prefix needle text
  || match text with
     | EmptyString => false
     | String _ rest => contains needle rest
     end.

(** [sep.join(parts)]. *)
Definition join (sep : string) (parts : list string) : string :=
  String.concat sep parts.

End Text.

(* ================================================================== *)
(** ** The lexicon                                                     *)
(* ================================================================== *)

(** The members of the three cue sets, listed as the source writes them. *)
Definition POSITIVE_CUES : list string :=
  [ "beats"; "beat"; "surge"; "growth"; "contract win"; "expands";
    "approved"; "funding secured"; "margin expansion"; "record revenue" ].

Definition NEGATIVE_CUES : list string :=
  [ "miss"; "delay"; "lawsuit"; "probe"; "recall"; "export ban";
    "downgrade"; "cuts guidance"; "cash burn"; "dilution" ].

Definition HIGH_SIGNAL_CUES : list string :=
  [ "earnings"; "guidance"; "regulatory"; "export control";
    "long-term contract"; "production ramp"; "capex"; "supply agreement";
    "government award" ].

(** The tuple literal of [signal_score]; a tuple is ordered. *)
Definition TRUSTED_DOMAINS : list string :=
  [ "reuters"; "bloomberg"; "ft.com"; "wsj"; "cnbc" ].

(** The order in which one interpreter process iterates over the three
    sets. *)
Record iteration : Type := {
  positive_order : list string;
  negative_order : list string;
  high_signal_order : list string
}.

(** An iteration order visits every member of its set exactly once. *)
Definition iterates (it : iteration) : Prop :=
  Permutation (positive_order it) POSITIVE_CUES
  /\ Permutation (negative_order it) NEGATIVE_CUES
  /\ Permutation (high_signal_order it) HIGH_SIGNAL_CUES.

(** The order in which the source lists the members. *)
Definition textual : iteration := {|
  positive_order := POSITIVE_CUES;
  negative_order := NEGATIVE_CUES;
  high_signal_order := HIGH_SIGNAL_CUES
|}.

(** Another order: every set visited backwards. *)
Definition reversed : iteration := {|
  positive_order := rev POSITIVE_CUES;
  negative_order := rev NEGATIVE_CUES;
  high_signal_order := rev HIGH_SIGNAL_CUES
|}.

(* ================================================================== *)
(** ** Data model                                                      *)
(* ================================================================== *)

Module Observation.
Record t : Type := mk {
  topic : string;
  company : string;
  source : string;
  url : string;
  summary : string
}.
End Observation.

Module Assessment.
Record t : Type := mk {
  observation : Observation.t;
  impact : string;
  signal_score : Z;
  reason : string
}.
End Assessment.

(* ================================================================== *)
(** ** Classifier and scorer                                           *)
(* ================================================================== *)

Definition normalize (text : string) : string :=
  Text.lower (Text.strip text).

(** [[cue for cue in cues if cue in text]]. *)
Definition hits (cues : list string) (text : string) : list string :=
  filter (fun cue => Text.contains cue text) cues.

Section Agent.

Variable it : iteration.

Definition classify_impact (summary : string) : string * string :=
  let text := normalize summary in
  let pos_hits := hits (positive_order it) text in
  let neg_hits := hits (negative_order it) text in
  if (length neg_hits <? length pos_hits)%nat then
    ("positive", "positive cues: " ++ Text.join ", " pos_hits)
  else if (length pos_hits <? length neg_hits)%nat then
    ("negative", "negative cues: " ++ Text.join ", " neg_hits)
  else
    ("mixed/unclear", "insufficient directional evidence").

(** The two locals [score] and [reasons] that [signal_score] updates. *)
Definition scoring : Type := (Z * list string)%type.

(** Lines 119-122: the catalyst cues. *)
Definition score_catalysts (text : string) (st : scoring) : scoring :=
  let '(score, reasons) := st in
  let cue_hits := hits (high_signal_order it) text in
  match cue_hits with
  | [] => (score, reasons)
  | _ :: _ =>
      ((score + Z.min 3 (Z.of_nat (length cue_hits)))%Z,
       (reasons ++ [("hard catalysts: " ++ Text.join ", " cue_hits)%string])%list)
  end.

(** Lines 124-130: the source tier, an [if]/[elif]. *)
Definition score_source (source_l : string) (st : scoring) : scoring :=
  let '(score, reasons) := st in
  if Text.contains "x.com" source_l then
    ((score + 1)%Z, (reasons ++ ["fast signal source (x.com)"])%list)
  else if existsb (fun domain => Text.contains domain source_l) TRUSTED_DOMAINS then
    ((score + 2)%Z, (reasons ++ ["high-credibility financial source"])%list)
  else (score, reasons).

(** Line 132: the returned pair. *)
Definition score_result (st : scoring) : Z * string :=
  let '(score, reasons) := st in
  (score,
   match reasons with
   | [] => "limited specificity"
   | _ :: _ => Text.join "; " reasons
   end).

Definition signal_score (summary source : string) : Z * string :=
  let text := normalize summary in
  let st := score_catalysts text (0%Z, []) in
  let source_l := normalize source in
  let st := score_source source_l st in
  score_result st.

End Agent.

(* ================================================================== *)
(** ** [sorted(..., key=..., reverse=True)]                            *)
(* ================================================================== *)

Module Sorting.

(** The key of line 143 is a tuple [(int, bool)]; tuples compare
    lexicographically and [False < True]. *)
Definition key : Type := (Z * bool)%type.

Definition key_lt (k1 k2 : key) : bool :=
  (fst k1 <? fst k2)%Z
  || ((fst k1 =? fst k2)%Z && (negb (snd k1) && snd k2)).

Definition key_eqb (k1 k2 : key) : bool :=
  (fst k1 =? fst k2)%Z && Bool.eqb (snd k1) (snd k2).

(** [k1 >= k2] on keys: [k1] is not below [k2]. *)
Definition key_ge (k1 k2 : key) : Prop := key_lt k1 k2 = false.

Section Sorted.

Context {A : Type} (key_of : A -> key).

(** [x] precedes every element of [l] in the input.  It goes after the
    elements whose key is strictly greater and before all the others, so
    that equal keys keep their input order. *)
Fixpoint insert_desc (x : A) (l : list A) : list A :=
  match l with
  | [] => [x]
  | y :: rest =>
      if key_lt (key_of x) (key_of y) then y :: insert_desc x rest
      else x :: l
  end.

Definition sorted_reverse (l : list A) : list A :=
  fold_right insert_desc [] l.

End Sorted.

End Sorting.

(* ================================================================== *)
(** ** The pipeline                                                    *)
(* ================================================================== *)

Definition mixed_unclear : string := "mixed/unclear".

(** [a.impact != "mixed/unclear"]. *)
Definition is_directional (a : Assessment.t) : bool :=
  negb (String.eqb (Assessment.impact a) mixed_unclear).

(** The [key] lambda of line 143. *)
Definition sort_key (a : Assessment.t) : Sorting.key :=
  (Assessment.signal_score a, is_directional a).

Section Pipeline.

Variable it : iteration.

(** The body of the loop of [assess]: the Assessment built for one
    Observation. *)
Definition assess_one (obs : Observation.t) : Assessment.t :=
  let '(impact, impact_reason) := classify_impact it (Observation.summary obs) in
  let '(score, signal_reason) :=
    signal_score it (Observation.summary obs) (Observation.source obs) in
  let reason := impact_reason ++ "; " ++ signal_reason in
  Assessment.mk obs impact score reason.

(** The list [assessed] once the loop has run: one [append] per
    Observation. *)
Definition assessed (observations : list Observation.t) : list Assessment.t :=
  fold_left (fun acc obs => (acc ++ [assess_one obs])%list) observations [].

Definition assess (observations : list Observation.t) : list Assessment.t :=
  Sorting.sorted_reverse sort_key (assessed observations).

End Pipeline.

(* ================================================================== *)
(** ** Vocabulary of the specification                                 *)
(* ================================================================== *)

(** The three reason fragments [signal_score] can append. *)
Definition catalyst_fragment (it : iteration) (text : string) : string :=
  "hard catalysts: " ++ Text.join ", " (hits (high_signal_order it) text).

Definition fast_fragment : string := "fast signal source (x.com)".

Definition credible_fragment : string := "high-credibility financial source".

Definition is_fragment (it : iteration) (text fragment : string) : Prop :=
  fragment = catalyst_fragment it text
  \/ fragment = fast_fragment
  \/ fragment = credible_fragment.

(** Section 4.3, step 1: [min(3, count_of_matches)]. *)
Definition catalyst_credit (it : iteration) (text : string) : Z :=
  Z.min 3 (Z.of_nat (length (hits (high_signal_order it) text))).

(** Section 4.3, step 2: the credit of the source tier. *)
Definition trusted (source_l : string) : bool :=
  existsb (fun domain => Text.contains domain source_l) TRUSTED_DOMAINS.

Definition source_credit (source_l : string) : Z :=
  if Text.contains "x.com" source_l then 1%Z
  else if trusted source_l then 2%Z
  else 0%Z.

(** What [signal_score] maintains about its two locals: the score is zero
    exactly as long as no fragment has been appended. *)
Definition well_scored (it : iteration) (text : string) (st : scoring) : Prop :=
  (0 <= fst st)%Z
  /\ (fst st = 0%Z <-> snd st = [])
  /\ Forall (is_fragment it text) (snd st).

(** What the ranking shows of an Assessment apart from its reason. *)
Definition verdict (a : Assessment.t) : Observation.t * string * Z :=
  (Assessment.observation a, Assessment.impact a, Assessment.signal_score a).

Definition verdict_key (v : Observation.t * string * Z) : Sorting.key :=
  (snd v, negb (String.eqb (snd (fst v)) mixed_unclear)).

(** The scenario of the specification and of the test suite. *)
Definition nvidia_summary : string :=
  "NVIDIA beats earnings and raises guidance after long-term contract win.".

(* ================================================================== *)
(** ** The report                                                      *)
(* ================================================================== *)

Module Format.

Definition newline : string := String (ascii_of_N 10) EmptyString.

(** [str.upper] on one code point below 256.  The capital of the sharp s
    (0xDF) is the two letters SS.  The capitals of the micro sign (0xB5)
    and of y with diaeresis (0xFF) are not Latin-1 code points; these two
    are left as they are, which is where this model of [upper] stops. *)
Definition upper_char (c : ascii) : string :=
  let n := N_of_ascii c in
  if (((97 <=? n) && (n <=? 122))
      || ((224 <=? n) && (n <=? 254) && negb (n =? 247)))%N
  then String (ascii_of_N (n - 32)) EmptyString
  else if (n =? 223)%N then "SS"
  else String c EmptyString.

Fixpoint upper (s : string) : string :=
  match s with
  | EmptyString => EmptyString
  | String c rest => upper_char c ++ upper rest
  end.

(** [f"{n}"] for an [int]: decimal digits, with a minus sign below zero. *)
Definition decimal (n : Z) : string := NilZero.string_of_int (Z.to_int n).

End Format.

(** The first four entries of [lines]; [now] is the timestamp that
    [strftime] returns. *)
Definition report_header (now : string) : list string :=
  [ "Daily Frontier Research Brief (" ++ now ++ ")";
    "";
    "Principles: skeptical, concise, capital-scarce, opportunity-cost aware.";
    "" ].

(** The three entries that the loop adds for one Assessment. *)
Definition item_lines (idx : Z) (item : Assessment.t) : list string :=
  let obs := Assessment.observation item in
  [ Format.decimal idx ++ ". [" ++ Observation.topic obs ++ "] "
      ++ Observation.company obs ++ " -> "
      ++ Format.upper (Assessment.impact item)
      ++ " (signal " ++ Format.decimal (Assessment.signal_score item) ++ "/5)";
    "   Why: " ++ Assessment.reason item ++ ".";
    "   Source: " ++ Observation.source obs
      ++ " (" ++ Observation.url obs ++ ")" ].

(** [for idx, item in enumerate(assessments, start=idx): lines.extend(...)]. *)
Fixpoint extend_items (idx : Z) (assessments : list Assessment.t)
    (lines : list string) : list string :=
  match assessments with
  | [] => lines
  | item :: rest =>
      extend_items (idx + 1)%Z rest (lines ++ item_lines idx item)%list
  end.

Definition action_filter : list string :=
  [ "";
    "Action filter:";
    "- Focus only on items with signal >=3 and clear positive/negative direction.";
    "- Ignore narrative-only items without earnings, regulation, supply, or contract implications." ].

(** The list [lines] when [render_report] returns. *)
Definition report_lines (now : string) (assessments : list Assessment.t)
    : list string :=
  let lines := report_header now in
  match assessments with
  | [] => (lines ++ ["No observations supplied."])%list
  | _ :: _ => (extend_items 1%Z assessments lines ++ action_filter)%list
  end.

Definition render_report (now : string) (assessments : list Assessment.t)
    : string :=
  Text.join Format.newline (report_lines now assessments).

(** The [analyze] branch of [main], from the loaded observations on. *)
Definition analyze (it : iteration) (now : string)
    (observations : list Observation.t) : string :=
  render_report now (assess it observations).

(** A string without a capital letter and without white space at either
    end: what [normalize] leaves unchanged. *)
Definition normalized (s : string) : Prop := normalize s = s.

(** Strings made of white space only. *)
Fixpoint blank (s : string) : bool :=
  match s with
  | EmptyString => true
  | String c rest => Text.is_space c && blank rest
  end.

(** A string that is empty or starts with a character that is not white
    space. *)
Definition clean_start (s : string) : Prop :=
  match s with
  | EmptyString => True
  | String c _ => Text.is_space c = false
  end.

(** [s] occurs in [text], in the words of the language reference: there
    are strings before and after it. *)
Definition occurs_in (s text : string) : Prop :=
  exists before after, text = before ++ s ++ after.

(* ================================================================== *)
(** ** Loading                                                         *)
(* ================================================================== *)

(** What [json.loads] returns: [None], a [bool], an [int], a [float], a
    [str], a [list], or a [dict] whose keys are strings.  A [dict] is the
    list of its items in insertion order; its keys are distinct.  The
    values of [float] play no role and are left abstract. *)
Module Json.

#[warnings="-register-all"]
Inductive value (float : Type) : Type :=
| Null
| Bool (b : bool)
| Int (n : Z)
| Float (x : float)
| Str (s : string)
| Arr (items : list (value float))
| Obj (members : list (string * value float)).

Arguments Null {float}.
Arguments Bool {float} b.
Arguments Int {float} n.
Arguments Float {float} x.
Arguments Str {float} s.
Arguments Arr {float} items.
Arguments Obj {float} members.

(** [members.get(key)]. *)
Fixpoint get {float : Type} (key : string)
    (members : list (string * value float)) : option (value float) :=
  match members with
  | [] => None
  | (k, v) :: rest => if String.eqb k key then Some v else get key rest
  end.

End Json.

(** An [Observation] as the dataclass constructor builds it: the
    annotations of the fields are not checked, a field holds whatever value
    the row has. *)
Module Untyped.
Record t (float : Type) : Type := mk {
  topic : Json.value float;
  company : Json.value float;
  source : Json.value float;
  url : Json.value float;
  summary : Json.value float
}.
Arguments mk {float} topic company source url summary.
Arguments topic {float} t.
Arguments company {float} t.
Arguments source {float} t.
Arguments url {float} t.
Arguments summary {float} t.
End Untyped.

(** The parameters of [Observation.__init__]. *)
Definition FIELDS : list string :=
  [ "topic"; "company"; "source"; "url"; "summary" ].

Section Loading.

Context {float : Type}.

(** [Observation( **row)]; [None] stands for the [TypeError] raised when
    [row] is not a mapping, has a key that is no field, or lacks a field. *)
Definition construct (row : Json.value float) : option (Untyped.t float) :=
  match row with
  | Json.Obj members =>
      if forallb (fun kv => existsb (String.eqb (fst kv)) FIELDS) members then
        match Json.get "topic" members, Json.get "company" members,
              Json.get "source" members, Json.get "url" members,
              Json.get "summary" members with
        | Some t, Some c, Some s, Some u, Some y => Some (Untyped.mk t c s u y)
        | _, _, _, _, _ => None
        end
      else None
  | _ => None
  end.

(** [for row in payload]: the rows that the comprehension visits; [None]
    stands for the [TypeError] of a payload that is not iterable.  A [dict]
    yields its keys and a [str] its characters. *)
Definition rows_of (payload : Json.value float) : option (list (Json.value float)) :=
  match payload with
  | Json.Arr items => Some items
  | Json.Obj members => Some (map (fun kv => Json.Str (fst kv)) members)
  | Json.Str s =>
      Some (map (fun c => Json.Str (String c EmptyString))
              (list_ascii_of_string s))
  | _ => None
  end.

(** [[Observation( **row) for row in rows]]: the first row that raises
    ends the comprehension. *)
Fixpoint construct_all (rows : list (Json.value float))
    : option (list (Untyped.t float)) :=
  match rows with
  | [] => Some []
  | row :: rest =>
      match construct row with
      | None => None
      | Some obs =>
          match construct_all rest with
          | None => None
          | Some others => Some (obs :: others)
          end
      end
  end.

(** [load_observations], from the value that [json.loads] returned. *)
Definition load_observations (payload : Json.value float)
    : option (list (Untyped.t float)) :=
  match rows_of payload with
  | None => None
  | Some rows => construct_all rows
  end.

(** The keys of a row are exactly the five field names. *)
Definition has_fields (members : list (string * Json.value float)) : Prop :=
  forall key, In key (map fst members) <-> In key FIELDS.



End Loading.

(* ================================================================== *)
(** ** todo_app: the store                                             *)
(* ================================================================== *)

(** [TodoStore] of [todo_app.py].  The store is its list [items] and the
    content of the database file at [path], the value that [json.dumps]
    wrote and [json.loads] reads back; [None] is a file that does not
    exist.  A method is a function of the store that returns the raised
    exception, or its result and the store after the call.  [complete]
    changes the item inside the list; references to that item held
    outside the store are not part of the model. *)
Module Todo.

Record item : Type := mk_item {
  id : Z;
  title : string;
  done : bool
}.

Inductive error : Type := ValueError | KeyError.

Section Store.

Context {float : Type}.

Record store : Type := mk_store {
  items : list item;
  file : option (Json.value float)
}.

(** [asdict(item)]. *)
Definition asdict (todo : item) : Json.value float :=
  Json.Obj [ ("id", Json.Int (id todo));
             ("title", Json.Str (title todo));
             ("done", Json.Bool (done todo)) ].

Definition save (st : store) : store :=
  mk_store (items st) (Some (Json.Arr (map asdict (items st)))).

(** [max((item.id for item in self.items), default=0) + 1]. *)
Definition next_id (st : store) : Z :=
  match map id (items st) with
  | [] => 0%Z
  | first :: others => fold_left Z.max others first
  end + 1.

Definition add (new_title : string) (st : store) : error + item * store :=
  let new_title := Text.strip new_title in
  match new_title with
  | EmptyString => inl ValueError
  | String _ _ =>
      let todo := mk_item (next_id st) new_title false in
      inr (todo, save (mk_store (items st ++ [todo]) (file st)))
  end.

(** [sorted(self.items, key=lambda item: item.id)]: stable, ascending. *)
Fixpoint insert_by_id (todo : item) (sorted : list item) : list item :=
  match sorted with
  | [] => [todo]
  | other :: rest =>
      if (id other <? id todo)%Z then other :: insert_by_id todo rest
      else todo :: sorted
  end.

Definition list_items (st : store) : list item :=
  fold_right insert_by_id [] (items st).

Fixpoint find (item_id : Z) (todos : list item) : option item :=
  match todos with
  | [] => None
  | todo :: rest =>
      if (id todo =? item_id)%Z then Some todo else find item_id rest
  end.

Definition get (item_id : Z) (st : store) : option item :=
  find item_id (items st).

(** The list after [item.done = True] on the item that [get] returned,
    the first one with this id. *)
Fixpoint mark_done (item_id : Z) (todos : list item) : list item :=
  match todos with
  | [] => []
  | todo :: rest =>
      if (id todo =? item_id)%Z
      then mk_item (id todo) (title todo) true :: rest
      else todo :: mark_done item_id rest
  end.

Definition complete (item_id : Z) (st : store) : error + item * store :=
  match get item_id st with
  | None => inl KeyError
  | Some todo =>
      inr (mk_item (id todo) (title todo) true,
           save (mk_store (mark_done item_id (items st)) (file st)))
  end.

Definition delete (item_id : Z) (st : store) : error + item * store :=
  match get item_id st with
  | None => inl KeyError
  | Some todo =>
      inr (todo,
           save (mk_store
                   (filter (fun other => negb (id other =? item_id)%Z) (items st))
                   (file st)))
  end.

(** A [TodoItem] as the dataclass constructor builds it from a row: the
    annotations are not checked. *)
Record loaded_item : Type := mk_loaded {
  loaded_id : Json.value float;
  loaded_title : Json.value float;
  loaded_done : Json.value float
}.

(** [TodoItem( **row)]: [id] and [title] are required, [done] defaults to
    [False], no other key is accepted. *)
Definition construct_item (row : Json.value float) : option loaded_item :=
  match row with
  | Json.Obj members =>
      if forallb (fun kv => existsb (String.eqb (fst kv)) ["id"; "title"; "done"])
           members then
        match Json.get "id" members, Json.get "title" members with
        | Some i, Some t =>
            Some (mk_loaded i t
                    match Json.get "done" members with
                    | Some d => d
                    | None => Json.Bool false
                    end)
        | _, _ => None
        end
      else None
  | _ => None
  end.

Fixpoint construct_items (rows : list (Json.value float))
    : option (list loaded_item) :=
  match rows with
  | [] => Some []
  | row :: rest =>
      match construct_item row with
      | None => None
      | Some todo =>
          match construct_items rest with
          | None => None
          | Some others => Some (todo :: others)
          end
      end
  end.

(** [load] on the content of the file: the items it puts into
    [self.items], or [None] when it raises a [TypeError]. *)
Definition load (content : option (Json.value float))
    : option (list loaded_item) :=
  match content with
  | None => Some []
  | Some raw =>
      match rows_of raw with
      | None => None
      | Some rows => construct_items rows
      end
  end.

(** An item of the annotated types, seen as a loaded one. *)
Definition as_loaded (todo : item) : loaded_item :=
  mk_loaded (Json.Int (id todo)) (Json.Str (title todo)) (Json.Bool (done todo)).

(** The file holds what is in memory. *)
Definition synced (st : store) : Prop :=
  file st = Some (Json.Arr (map asdict (items st))).

End Store.

Arguments store float : clear implicits.
Arguments loaded_item float : clear implicits.

End Todo.

(* ================================================================== *)
(** ** Facts about the text primitives                                 *)
(* ================================================================== *)

Section TextFacts.

Lemma prefix_app_l (a b text : string) :
  String.prefix (a ++ b) text = true -> String.prefix a text = true.
Proof.
  revert text.
  induction a as [| c a IH]; intros [| d text]; simpl; trivial.
  destruct (ascii_dec c d); [apply IH | discriminate].
Qed.

(** A text that contains [a ++ b] contains [a]. *)
Lemma contains_app_l (a b text : string) :
  Text.contains (a ++ b) text = true -> Text.contains a text = true.
Proof.
  induction text as [| d text IH].
  - cbn [Text.contains]. rewrite !orb_false_r. apply prefix_app_l.
  - cbn [Text.contains]. rewrite !orb_true_iff.
    intros [Hp | Hc]; [left; eapply prefix_app_l; eassumption | right; auto].
Qed.

Lemma join_cons_cons (sep x y : string) (rest : list string) :
  Text.join sep (x :: y :: rest) = x ++ sep ++ Text.join sep (y :: rest).
Proof. reflexivity. Qed.

Lemma join_singleton (sep x : string) : Text.join sep [x] = x.
Proof. reflexivity. Qed.

(** The first character of a joined list is the first character of its
    first part. *)
Lemma join_head (sep : string) (c : ascii) (x : string) (rest : list string) :
  exists tail, Text.join sep (String c x :: rest) = String c tail.
Proof.
  destruct rest as [| y rest].
  - exists x. reflexivity.
  - eexists. rewrite join_cons_cons. reflexivity.
Qed.

End TextFacts.

(* ================================================================== *)
(** ** Facts about cue matching                                        *)
(* ================================================================== *)

Section HitFacts.

Variable text : string.

Lemma hits_cons (cue : string) (cues : list string) :
  hits (cue :: cues) text
  = if Text.contains cue text then cue :: hits cues text else hits cues text.
Proof. reflexivity. Qed.

Lemma hits_In (cue : string) (cues : list string) :
  In cue (hits cues text) <-> In cue cues /\ Text.contains cue text = true.
Proof. unfold hits. exact (filter_In (fun c => Text.contains c text) cue cues). Qed.

Lemma hits_NoDup (cues : list string) : NoDup cues -> NoDup (hits cues text).
Proof. unfold hits. apply NoDup_filter. Qed.

(** The number of matching cues does not depend on the order in which the
    cues are visited. *)
Lemma hits_length_perm (cues cues' : list string) :
  Permutation cues cues' -> length (hits cues text) = length (hits cues' text).
Proof.
  induction 1 as [| x l l' _ IH | x y l | l l' l'' _ IH1 _ IH2].
  - reflexivity.
  - rewrite !hits_cons. destruct (Text.contains x text); simpl; congruence.
  - rewrite !hits_cons.
    destruct (Text.contains x text), (Text.contains y text); reflexivity.
  - congruence.
Qed.

Lemma hits_perm (cues cues' : list string) :
  Permutation cues cues' -> Permutation (hits cues text) (hits cues' text).
Proof.
  induction 1 as [| x l l' _ IH | x y l | l l' l'' _ IH1 _ IH2].
  - constructor.
  - rewrite !hits_cons. destruct (Text.contains x text); auto.
  - rewrite !hits_cons.
    destruct (Text.contains x text), (Text.contains y text);
      auto using perm_swap.
  - eapply perm_trans; eassumption.
Qed.

(** Two matching, distinct members of a duplicate-free cue list give at
    least two hits. *)
Lemma hits_two (c1 c2 : string) (cues : list string) :
  c1 <> c2 -> In c1 cues -> In c2 cues ->
  Text.contains c1 text = true -> Text.contains c2 text = true ->
  (2 <= length (hits cues text))%nat.
Proof.
  intros Hne H1 H2 M1 M2.
  assert (I1 : In c1 (hits cues text)) by (apply hits_In; auto).
  assert (I2 : In c2 (hits cues text)) by (apply hits_In; auto).
  destruct (hits cues text) as [| a [| b rest]]; simpl in *.
  - contradiction.
  - destruct I1 as [<- | []], I2 as [<- | []]. congruence.
  - lia.
Qed.

End HitFacts.

Lemma POSITIVE_CUES_NoDup : NoDup POSITIVE_CUES.
Proof.
  unfold POSITIVE_CUES.
  repeat (constructor; [simpl; intuition discriminate |]). constructor.
Qed.

Lemma NEGATIVE_CUES_NoDup : NoDup NEGATIVE_CUES.
Proof.
  unfold NEGATIVE_CUES.
  repeat (constructor; [simpl; intuition discriminate |]). constructor.
Qed.

Lemma HIGH_SIGNAL_CUES_NoDup : NoDup HIGH_SIGNAL_CUES.
Proof.
  unfold HIGH_SIGNAL_CUES.
  repeat (constructor; [simpl; intuition discriminate |]). constructor.
Qed.

Lemma iterates_textual : iterates textual.
Proof. repeat split; apply Permutation_refl. Qed.

Lemma iterates_reversed : iterates reversed.
Proof. repeat split; apply Permutation_sym, Permutation_rev. Qed.

(* ================================================================== *)
(** ** Facts about the sort                                            *)
(* ================================================================== *)

Section SortFacts.

Import Sorting.

Lemma key_lt_spec (k1 k2 : key) :
  key_lt k1 k2 = true <->
  (fst k1 < fst k2)%Z \/ (fst k1 = fst k2 /\ snd k1 = false /\ snd k2 = true).
Proof.
  unfold key_lt.
  rewrite orb_true_iff, !andb_true_iff, negb_true_iff, Z.ltb_lt, Z.eqb_eq.
  tauto.
Qed.

Lemma key_ge_spec (k1 k2 : key) :
  key_ge k1 k2 <->
  (fst k2 < fst k1)%Z \/ (fst k1 = fst k2 /\ Bool.le (snd k2) (snd k1)).
Proof.
  unfold key_ge.
  destruct (key_lt k1 k2) eqn:E.
  - apply key_lt_spec in E. split; [discriminate |].
    destruct (snd k1), (snd k2); simpl; intros [? | [? ?]];
      try lia; try discriminate; try contradiction;
      destruct E as [? | (? & ? & ?)]; try lia; discriminate.
  - split; [intros _ | reflexivity].
    assert (N : ~ ((fst k1 < fst k2)%Z
                   \/ (fst k1 = fst k2 /\ snd k1 = false /\ snd k2 = true)))
      by (rewrite <- key_lt_spec, E; discriminate).
    destruct (Z.lt_trichotomy (fst k1) (fst k2)) as [L | [L | L]].
    + exfalso. apply N. now left.
    + right. split; [assumption |].
      destruct (snd k1) eqn:E1, (snd k2) eqn:E2; simpl; trivial.
      exfalso. apply N. right. auto.
    + now left.
Qed.

Lemma key_ge_trans (k1 k2 k3 : key) :
  key_ge k1 k2 -> key_ge k2 k3 -> key_ge k1 k3.
Proof.
  rewrite !key_ge_spec.
  destruct (snd k1), (snd k2), (snd k3); simpl; intuition (try lia; try congruence).
Qed.

Lemma key_lt_ge (k1 k2 : key) : key_lt k1 k2 = true -> key_ge k2 k1.
Proof.
  rewrite key_lt_spec, key_ge_spec.
  intros [L | (E & F & T)]; [now left |].
  right. rewrite F, T. split; [congruence | reflexivity].
Qed.

Lemma key_eqb_eq (k1 k2 : key) : key_eqb k1 k2 = true <-> k1 = k2.
Proof.
  unfold key_eqb. destruct k1 as [z1 b1], k2 as [z2 b2]; simpl.
  rewrite andb_true_iff, Z.eqb_eq, Bool.eqb_true_iff.
  split; [intros [-> ->]; reflexivity | intros [= -> ->]; auto].
Qed.

Lemma key_lt_irrefl (k : key) : key_lt k k = false.
Proof.
  unfold key_lt. rewrite Z.ltb_irrefl, Z.eqb_refl.
  destruct (snd k); reflexivity.
Qed.

Context {A : Type} (key_of : A -> key).

Local Abbreviation insert := (insert_desc key_of).
Local Abbreviation sort := (sorted_reverse key_of).
Local Abbreviation descending :=
  (StronglySorted (fun a b => key_ge (key_of a) (key_of b))).

Lemma sorted_reverse_cons (x : A) (l : list A) :
  sort (x :: l) = insert x (sort l).
Proof. reflexivity. Qed.

Lemma insert_desc_perm (x : A) (l : list A) : Permutation (insert x l) (x :: l).
Proof.
  induction l as [| y l IH]; simpl.
  - apply Permutation_refl.
  - destruct (key_lt (key_of x) (key_of y)).
    + eapply perm_trans; [apply perm_skip, IH | apply perm_swap].
    + apply Permutation_refl.
Qed.

Lemma sorted_reverse_perm (l : list A) : Permutation (sort l) l.
Proof.
  induction l as [| x l IH].
  - constructor.
  - rewrite sorted_reverse_cons.
    eapply perm_trans; [apply insert_desc_perm | apply perm_skip, IH].
Qed.

Lemma sorted_reverse_length (l : list A) : length (sort l) = length l.
Proof. apply Permutation_length, sorted_reverse_perm. Qed.

Lemma insert_desc_descending (x : A) (l : list A) :
  descending l -> descending (insert x l).
Proof.
  induction 1 as [| y l Hl IH Hy]; simpl.
  - repeat constructor.
  - destruct (key_lt (key_of x) (key_of y)) eqn:E.
    + constructor; [assumption |].
      eapply Permutation_Forall; [apply Permutation_sym, insert_desc_perm |].
      constructor; [now apply key_lt_ge | assumption].
    + constructor; [now constructor |].
      constructor; [exact E |].
      eapply Forall_impl; [| exact Hy].
      intros b Hb. eapply key_ge_trans; [exact E | exact Hb].
Qed.

Lemma sorted_reverse_descending (l : list A) : descending (sort l).
Proof.
  induction l as [| x l IH].
  - constructor.
  - rewrite sorted_reverse_cons. now apply insert_desc_descending.
Qed.

(** In a descending list the key at an earlier position is not below the
    key at a later one. *)
Lemma descending_nth_error (l : list A) (i j : nat) (a b : A) :
  descending l -> (i < j)%nat ->
  nth_error l i = Some a -> nth_error l j = Some b ->
  key_ge (key_of a) (key_of b).
Proof.
  intros Hl. revert i j.
  induction Hl as [| y l Hl IH Hy]; intros i j Hij Hi Hj.
  - destruct i; discriminate.
  - destruct j as [| j]; [lia |].
    destruct i as [| i]; simpl in Hi, Hj.
    + injection Hi as <-.
      rewrite Forall_forall in Hy. eapply Hy, nth_error_In, Hj.
    + apply (IH i j); [lia | assumption | assumption].
Qed.

(** Stability: inserting does not disturb the sequence of the elements
    that carry one given key. *)
Lemma insert_desc_filter (k : key) (x : A) (l : list A) :
  filter (fun a => key_eqb (key_of a) k) (insert x l)
  = filter (fun a => key_eqb (key_of a) k) (x :: l).
Proof.
  induction l as [| y l IH]; [reflexivity |].
  cbn [insert_desc].
  destruct (key_lt (key_of x) (key_of y)) eqn:E; [| reflexivity].
  cbn [filter] in *. rewrite IH.
  destruct (key_eqb (key_of x) k) eqn:Ex, (key_eqb (key_of y) k) eqn:Ey;
    try reflexivity.
  apply key_eqb_eq in Ex, Ey. rewrite Ex, Ey, key_lt_irrefl in E.
  discriminate.
Qed.

Lemma sorted_reverse_filter (k : key) (l : list A) :
  filter (fun a => key_eqb (key_of a) k) (sort l)
  = filter (fun a => key_eqb (key_of a) k) l.
Proof.
  induction l as [| x l IH]; [reflexivity |].
  rewrite sorted_reverse_cons, insert_desc_filter.
  cbn [filter]. now rewrite IH.
Qed.

End SortFacts.

(** Sorting commutes with a map that preserves the keys. *)
Lemma sorted_reverse_map {A B : Type} (f : A -> B)
    (key_a : A -> Sorting.key) (key_b : B -> Sorting.key) (l : list A) :
  (forall a, key_b (f a) = key_a a) ->
  map f (Sorting.sorted_reverse key_a l) = Sorting.sorted_reverse key_b (map f l).
Proof.
  intros Hk.
  assert (Hi : forall x s,
             map f (Sorting.insert_desc key_a x s)
             = Sorting.insert_desc key_b (f x) (map f s)).
  { intros x s. induction s as [| y s IH]; [reflexivity |].
    simpl. rewrite !Hk.
    destruct (Sorting.key_lt (key_a x) (key_a y)); simpl; congruence. }
  induction l as [| x l IH]; [reflexivity |].
  cbn [map]. rewrite !sorted_reverse_cons, Hi, IH. reflexivity.
Qed.

(* ================================================================== *)
(** ** Facts about the classifier and the scorer                       *)
(* ================================================================== *)

Section AgentFacts.

Variable it : iteration.

Lemma classify_impact_cases (summary : string) :
  let pos := length (hits (positive_order it) (normalize summary)) in
  let neg := length (hits (negative_order it) (normalize summary)) in
  ((neg < pos)%nat /\ fst (classify_impact it summary) = "positive")
  \/ ((pos < neg)%nat /\ fst (classify_impact it summary) = "negative")
  \/ (pos = neg
      /\ classify_impact it summary
         = (mixed_unclear, "insufficient directional evidence")).
Proof.
  cbv zeta. unfold classify_impact.
  destruct (Nat.ltb_spec (length (hits (negative_order it) (normalize summary)))
                         (length (hits (positive_order it) (normalize summary))))
    as [L | L]; [now left |].
  destruct (Nat.ltb_spec (length (hits (positive_order it) (normalize summary)))
                         (length (hits (negative_order it) (normalize summary))))
    as [L' | L']; [right; now left |].
  right; right. split; [lia | reflexivity].
Qed.

Lemma score_catalysts_fst (text : string) (st : scoring) :
  fst (score_catalysts it text st) = (fst st + catalyst_credit it text)%Z.
Proof.
  destruct st as [score reasons].
  unfold score_catalysts, catalyst_credit.
  destruct (hits (high_signal_order it) text); cbn [fst length]; [| reflexivity].
  change (Z.min 3 (Z.of_nat 0)) with 0%Z. lia.
Qed.

Lemma score_catalysts_snd (text : string) (st : scoring) :
  snd (score_catalysts it text st)
  = match hits (high_signal_order it) text with
    | [] => snd st
    | _ :: _ => (snd st ++ [catalyst_fragment it text])%list
    end.
Proof.
  destruct st as [score reasons].
  unfold score_catalysts, catalyst_fragment.
  destruct (hits (high_signal_order it) text); reflexivity.
Qed.

Lemma score_source_fst (source_l : string) (st : scoring) :
  fst (score_source source_l st) = (fst st + source_credit source_l)%Z.
Proof.
  destruct st as [score reasons].
  unfold score_source, source_credit, trusted.
  destruct (Text.contains "x.com" source_l); [reflexivity |].
  destruct (existsb _ TRUSTED_DOMAINS); cbn [fst]; [reflexivity | lia].
Qed.

Lemma score_source_snd (source_l : string) (st : scoring) :
  snd (score_source source_l st)
  = (snd st ++ (if Text.contains "x.com" source_l then [fast_fragment]
                else if trusted source_l then [credible_fragment]
                else []))%list.
Proof.
  destruct st as [score reasons].
  unfold score_source, trusted.
  destruct (Text.contains "x.com" source_l); [reflexivity |].
  destruct (existsb _ TRUSTED_DOMAINS); cbn [snd]; [reflexivity |].
  now rewrite app_nil_r.
Qed.

Lemma score_result_fst (st : scoring) : fst (score_result st) = fst st.
Proof. destruct st as [score [| r reasons]]; reflexivity. Qed.

Lemma catalyst_credit_range (text : string) :
  (0 <= catalyst_credit it text <= 3)%Z.
Proof. unfold catalyst_credit. lia. Qed.

Lemma catalyst_credit_pos (text : string) :
  hits (high_signal_order it) text <> [] -> (1 <= catalyst_credit it text)%Z.
Proof.
  unfold catalyst_credit.
  destruct (hits (high_signal_order it) text); [congruence |].
  intros _. cbn [length]. lia.
Qed.

Lemma source_credit_range (source_l : string) :
  (0 <= source_credit source_l <= 2)%Z.
Proof.
  unfold source_credit.
  destruct (Text.contains "x.com" source_l), (trusted source_l); lia.
Qed.

(** The score is the catalyst credit plus the source credit. *)
Lemma signal_score_fst (summary source : string) :
  fst (signal_score it summary source)
  = (catalyst_credit it (normalize summary) + source_credit (normalize source))%Z.
Proof.
  unfold signal_score.
  rewrite score_result_fst, score_source_fst, score_catalysts_fst.
  reflexivity.
Qed.

Lemma well_scored_init (text : string) : well_scored it text (0%Z, []).
Proof. repeat split; simpl; auto; lia. Qed.

Lemma well_scored_catalysts (text : string) (st : scoring) :
  well_scored it text st -> well_scored it text (score_catalysts it text st).
Proof.
  intros (Hpos & Hzero & Hfrag).
  unfold well_scored.
  rewrite score_catalysts_fst, score_catalysts_snd.
  pose proof (catalyst_credit_range text) as Hr.
  destruct (hits (high_signal_order it) text) as [| c cs] eqn:E.
  - assert (catalyst_credit it text = 0%Z) as ->
      by (unfold catalyst_credit; rewrite E; reflexivity).
    rewrite Z.add_0_r. auto.
  - assert (1 <= catalyst_credit it text)%Z
      by (apply catalyst_credit_pos; rewrite E; discriminate).
    split; [lia |]. split.
    + split; [lia |]. intros Happ. apply app_eq_nil in Happ.
      destruct Happ; discriminate.
    + apply Forall_app. split; [assumption |].
      constructor; [now left | constructor].
Qed.

Lemma well_scored_source (text source_l : string) (st : scoring) :
  well_scored it text st -> well_scored it text (score_source source_l st).
Proof.
  intros (Hpos & Hzero & Hfrag).
  unfold well_scored.
  rewrite score_source_fst, score_source_snd.
  unfold source_credit.
  destruct (Text.contains "x.com" source_l); [| destruct (trusted source_l)].
  - split; [lia |]. split.
    + split; [lia |]. intros Happ. apply app_eq_nil in Happ.
      destruct Happ; discriminate.
    + apply Forall_app. split; [assumption |].
      constructor; [right; now left | constructor].
  - split; [lia |]. split.
    + split; [lia |]. intros Happ. apply app_eq_nil in Happ.
      destruct Happ; discriminate.
    + apply Forall_app. split; [assumption |].
      constructor; [right; now right | constructor].
  - rewrite Z.add_0_r, app_nil_r. auto.
Qed.

(** No fragment starts with the letter of the default reason. *)
Lemma fragment_head (text fragment : string) :
  is_fragment it text fragment ->
  exists c tail, fragment = String c tail /\ c <> "l"%char.
Proof.
  intros [-> | [-> | ->]].
  - exists "h"%char. eexists. split; [reflexivity | discriminate].
  - exists "f"%char. eexists. split; [reflexivity | discriminate].
  - exists "h"%char. eexists. split; [reflexivity | discriminate].
Qed.

Lemma score_result_default (text : string) (st : scoring) :
  Forall (is_fragment it text) (snd st) ->
  (snd (score_result st) = "limited specificity" <-> snd st = []).
Proof.
  destruct st as [score [| r reasons]]; intros Hf.
  - split; reflexivity.
  - split; [| discriminate].
    cbn [score_result snd]. intros Heq. exfalso.
    apply Forall_inv in Hf.
    destruct (fragment_head _ _ Hf) as (c & tail & -> & Hc).
    destruct (join_head "; " c tail reasons) as (tail' & Hj).
    rewrite Hj in Heq. injection Heq as Hc' _. contradiction.
Qed.

Lemma signal_score_well_scored (summary source : string) :
  well_scored it (normalize summary)
    (score_source (normalize source)
       (score_catalysts it (normalize summary) (0%Z, []))).
Proof. apply well_scored_source, well_scored_catalysts, well_scored_init. Qed.

End AgentFacts.

(* ================================================================== *)
(** ** Independence from the iteration order                           *)
(* ================================================================== *)

Section IterationFacts.

Variables it1 it2 : iteration.
Hypothesis Hit1 : iterates it1.
Hypothesis Hit2 : iterates it2.

Lemma positive_hits_length (text : string) :
  length (hits (positive_order it1) text) = length (hits (positive_order it2) text).
Proof.
  destruct Hit1 as (P1 & _), Hit2 as (P2 & _).
  rewrite (hits_length_perm text _ _ P1), (hits_length_perm text _ _ P2).
  reflexivity.
Qed.

Lemma negative_hits_length (text : string) :
  length (hits (negative_order it1) text) = length (hits (negative_order it2) text).
Proof.
  destruct Hit1 as (_ & P1 & _), Hit2 as (_ & P2 & _).
  rewrite (hits_length_perm text _ _ P1), (hits_length_perm text _ _ P2).
  reflexivity.
Qed.

Lemma high_signal_hits_length (text : string) :
  length (hits (high_signal_order it1) text)
  = length (hits (high_signal_order it2) text).
Proof.
  destruct Hit1 as (_ & _ & P1), Hit2 as (_ & _ & P2).
  rewrite (hits_length_perm text _ _ P1), (hits_length_perm text _ _ P2).
  reflexivity.
Qed.

Lemma classify_impact_label (summary : string) :
  fst (classify_impact it1 summary) = fst (classify_impact it2 summary).
Proof.
  unfold classify_impact.
  rewrite (positive_hits_length (normalize summary)).
  rewrite (negative_hits_length (normalize summary)).
  destruct (_ <? _)%nat; [reflexivity |].
  destruct (_ <? _)%nat; reflexivity.
Qed.

Lemma catalyst_credit_iteration (text : string) :
  catalyst_credit it1 text = catalyst_credit it2 text.
Proof. unfold catalyst_credit. now rewrite high_signal_hits_length. Qed.

Lemma signal_score_score (summary source : string) :
  fst (signal_score it1 summary source) = fst (signal_score it2 summary source).
Proof. rewrite !signal_score_fst. now rewrite catalyst_credit_iteration. Qed.

End IterationFacts.

(* ================================================================== *)
(** ** Facts about the pipeline                                        *)
(* ================================================================== *)

Section PipelineFacts.

Variable it : iteration.

Lemma assess_one_observation (obs : Observation.t) :
  Assessment.observation (assess_one it obs) = obs.
Proof.
  unfold assess_one.
  destruct (classify_impact it _), (signal_score it _ _). reflexivity.
Qed.

Lemma assess_one_impact (obs : Observation.t) :
  Assessment.impact (assess_one it obs)
  = fst (classify_impact it (Observation.summary obs)).
Proof.
  unfold assess_one.
  destruct (classify_impact it _), (signal_score it _ _). reflexivity.
Qed.

Lemma assess_one_signal_score (obs : Observation.t) :
  Assessment.signal_score (assess_one it obs)
  = fst (signal_score it (Observation.summary obs) (Observation.source obs)).
Proof.
  unfold assess_one.
  destruct (classify_impact it _), (signal_score it _ _). reflexivity.
Qed.

(** The loop of [assess] is a map. *)
Lemma assessed_map (observations : list Observation.t) :
  assessed it observations = map (assess_one it) observations.
Proof.
  unfold assessed.
  enough (G : forall acc,
             fold_left (fun acc obs => (acc ++ [assess_one it obs])%list)
               observations acc
             = (acc ++ map (assess_one it) observations)%list)
    by apply (G []).
  induction observations as [| obs observations IH]; intros acc; simpl.
  - now rewrite app_nil_r.
  - rewrite IH, <- app_assoc. reflexivity.
Qed.

Lemma assess_perm (observations : list Observation.t) :
  Permutation (assess it observations) (map (assess_one it) observations).
Proof. unfold assess. rewrite assessed_map. apply sorted_reverse_perm. Qed.

Lemma assess_descending (observations : list Observation.t) :
  StronglySorted (fun a b => Sorting.key_ge (sort_key a) (sort_key b))
    (assess it observations).
Proof. unfold assess. apply sorted_reverse_descending. Qed.

End PipelineFacts.

(* ================================================================== *)
(** ** The properties of the specification                             *)
(* ================================================================== *)

(** C1 (ranking order).  Whatever the observations, two Assessments at
    adjacent positions of the output of [assess] are in descending order of
    [(signal_score, is_directional)]: the first has the greater score, or
    the scores are equal and the second is directional only if the first
    is.  Moreover, of two Assessments of the output with the same score,
    one positive or negative and one mixed/unclear, the directional one
    stands at the smaller position. *)
Theorem assess_ranking_order (it : iteration) (observations : list Observation.t) :
  let out := assess it observations in
  (forall (i : nat) (a b : Assessment.t),
      nth_error out i = Some a -> nth_error out (S i) = Some b ->
      (Assessment.signal_score a > Assessment.signal_score b)%Z
      \/ (Assessment.signal_score a = Assessment.signal_score b
          /\ Bool.le (is_directional b) (is_directional a)))
  /\ (forall (i j : nat) (a b : Assessment.t),
         nth_error out i = Some a -> nth_error out j = Some b ->
         Assessment.signal_score a = Assessment.signal_score b ->
         Assessment.impact a = "positive" \/ Assessment.impact a = "negative" ->
         Assessment.impact b = mixed_unclear ->
         (i < j)%nat).
Proof.
  intros out.
  pose proof (assess_descending it observations) as Hs. fold out in Hs.
  split.
  - intros i a b Ha Hb.
    assert (G : Sorting.key_ge (sort_key a) (sort_key b))
      by (eapply (descending_nth_error sort_key out i (S i)); eauto).
    apply key_ge_spec in G. cbn [sort_key fst snd] in G.
    destruct G as [G | G]; [left; lia | right; assumption].
  - intros i j a b Ha Hb Heq Hdir Hmix.
    assert (Da : is_directional a = true)
      by (unfold is_directional; destruct Hdir as [-> | ->]; reflexivity).
    assert (Db : is_directional b = false)
      by (unfold is_directional; rewrite Hmix; reflexivity).
    destruct (Nat.lt_trichotomy i j) as [L | [L | L]]; [assumption | |].
    + subst j. rewrite Ha in Hb. injection Hb as ->. congruence.
    + exfalso.
      assert (G : Sorting.key_ge (sort_key b) (sort_key a))
        by (eapply (descending_nth_error sort_key out j i); eauto).
      apply key_ge_spec in G. cbn [sort_key fst snd] in G.
      rewrite Da, Db in G. destruct G as [G | [_ G]]; [lia | discriminate G].
Qed.

(** C2 (stability).  For every key [(signal_score, is_directional)], the
    Assessments of the output that carry this key are, in this order, the
    Assessments of the input observations that carry it: equal keys keep
    their relative input order. *)
Theorem assess_stable (it : iteration) (observations : list Observation.t)
    (k : Sorting.key) :
  filter (fun a => Sorting.key_eqb (sort_key a) k) (assess it observations)
  = filter (fun a => Sorting.key_eqb (sort_key a) k)
      (map (assess_one it) observations).
Proof.
  unfold assess. rewrite assessed_map. apply sorted_reverse_filter.
Qed.

(** The scenario of the specification for C1: two observations with the
    same score 2, the mixed/unclear one supplied first; the positive one
    is ranked first. *)
Example assess_directional_first :
  map (fun a => (Observation.company (Assessment.observation a),
                 Assessment.impact a, Assessment.signal_score a))
    (assess textual
       [ Observation.mk "Robotics" "ABB" "Bloomberg" "u1" "ABB comments on outlook";
         Observation.mk "Robotics" "Fanuc" "Reuters" "u2" "Fanuc expands plant" ])
  = [ ("Fanuc", "positive", 2%Z); ("ABB", "mixed/unclear", 2%Z) ].
Proof. vm_compute. reflexivity. Qed.

(** C3 (majority rule).  Under any iteration order of the cue sets, every
    cue is counted at most once, the number of hits is the number of
    members of the set that occur in the normalized summary, and the label
    is positive when strictly more positive than negative cues match,
    negative when strictly more negative ones match, and mixed/unclear with
    the reason "insufficient directional evidence" when the two counts are
    equal, zero or not. *)
Theorem classify_impact_majority (it : iteration) (Hit : iterates it)
    (summary : string) :
  let text := normalize summary in
  let pos := length (hits POSITIVE_CUES text) in
  let neg := length (hits NEGATIVE_CUES text) in
  NoDup (hits (positive_order it) text)
  /\ NoDup (hits (negative_order it) text)
  /\ length (hits (positive_order it) text) = pos
  /\ length (hits (negative_order it) text) = neg
  /\ ((neg < pos)%nat -> fst (classify_impact it summary) = "positive")
  /\ ((pos < neg)%nat -> fst (classify_impact it summary) = "negative")
  /\ (pos = neg ->
      classify_impact it summary
      = (mixed_unclear, "insufficient directional evidence")).
Proof.
  intros text pos neg.
  destruct Hit as (Pp & Pn & _).
  assert (Lp : length (hits (positive_order it) text) = pos)
    by apply (hits_length_perm text _ _ Pp).
  assert (Ln : length (hits (negative_order it) text) = neg)
    by apply (hits_length_perm text _ _ Pn).
  split; [| split; [| split; [exact Lp | split; [exact Ln |]]]].
  - apply hits_NoDup.
    eapply Permutation_NoDup;
      [apply Permutation_sym, Pp | apply POSITIVE_CUES_NoDup].
  - apply hits_NoDup.
    eapply Permutation_NoDup;
      [apply Permutation_sym, Pn | apply NEGATIVE_CUES_NoDup].
  - pose proof (classify_impact_cases it summary) as C. cbv zeta in C.
    fold text in C. rewrite Lp, Ln in C.
    repeat split; intros H;
      destruct C as [(L & E) | [(L & E) | (L & E)]];
      try assumption; try lia.
Qed.

Lemma classify_impact_majority_witness :
  iterates textual
  /\ fst (classify_impact textual "Record revenue and growth despite a lawsuit")
     = "positive"
  /\ fst (classify_impact textual "Probe and recall overshadow approved plan")
     = "negative"
  /\ classify_impact textual "Surge in orders, but a delay in deliveries"
     = (mixed_unclear, "insufficient directional evidence").
Proof.
  split; [exact iterates_textual |].
  split; [| split].
  - destruct (classify_impact_majority textual iterates_textual
                "Record revenue and growth despite a lawsuit")
      as (_ & _ & _ & _ & H & _ & _).
    apply H. vm_compute. lia.
  - destruct (classify_impact_majority textual iterates_textual
                "Probe and recall overshadow approved plan")
      as (_ & _ & _ & _ & _ & H & _).
    apply H. vm_compute. lia.
  - destruct (classify_impact_majority textual iterates_textual
                "Surge in orders, but a delay in deliveries")
      as (_ & _ & _ & _ & _ & _ & H).
    apply H. vm_compute. reflexivity.
Defined.

(** C4 (score bounds).  For every summary and source the score of
    [signal_score] lies between 0 and 5: it is the catalyst credit
    [min(3, number of matching high-signal cues)], between 0 and 3, plus
    the credit of the source tier, between 0 and 2. *)
Theorem signal_score_bounds (it : iteration) (summary source : string) :
  let score := fst (signal_score it summary source) in
  let matches := length (hits (high_signal_order it) (normalize summary)) in
  let catalysts := Z.min 3 (Z.of_nat matches) in
  (0 <= score <= 5)%Z
  /\ fst (score_catalysts it (normalize summary) (0%Z, [])) = catalysts
  /\ (0 <= catalysts <= 3)%Z
  /\ (0 <= score - catalysts <= 2)%Z.
Proof.
  intros score matches catalysts.
  assert (Hs : score
               = (catalysts + source_credit (normalize source))%Z)
    by apply signal_score_fst.
  pose proof (source_credit_range (normalize source)) as Hr.
  assert (Hc : (0 <= catalysts <= 3)%Z) by (unfold catalysts; lia).
  repeat split; try lia.
  rewrite score_catalysts_fst. reflexivity.
Qed.

(** C5 (totality).  [assess] yields a list for every finite list of
    observations, whatever strings their fields hold: the output has the
    length of the input, its observations are those of the input, each
    exactly once, and the empty input gives the empty output. *)
Theorem assess_total (it : iteration) (observations : list Observation.t) :
  length (assess it observations) = length observations
  /\ Permutation (map Assessment.observation (assess it observations))
       observations
  /\ assess it [] = [].
Proof.
  pose proof (assess_perm it observations) as P.
  split; [| split].
  - rewrite (Permutation_length P). apply length_map.
  - eapply perm_trans; [apply Permutation_map, P |].
    rewrite map_map.
    erewrite map_ext; [rewrite map_id; apply Permutation_refl |].
    apply assess_one_observation.
  - reflexivity.
Qed.

(** [assess] on observations whose fields are all empty strings. *)
Example assess_empty_fields :
  map verdict (assess textual [Observation.mk "" "" "" "" ""])
  = [ (Observation.mk "" "" "" "" "", "mixed/unclear", 0%Z) ]
  /\ map Assessment.reason (assess textual [Observation.mk "" "" "" "" ""])
     = [ "insufficient directional evidence; limited specificity" ].
Proof. split; vm_compute; reflexivity. Qed.

(** C6 (source tiers).  The source tier is decided on the normalized
    source, the fast-source marker first: a source that contains "x.com"
    adds exactly 1 and the fast-source fragment, also when it contains a
    trusted-domain marker; otherwise a source that contains a
    trusted-domain marker adds exactly 2 and the credibility fragment;
    otherwise nothing is added.  No call collects both fragments, and the
    source contributes 0, 1 or 2. *)
Theorem source_tiers_exclusive (it : iteration) (summary source : string) :
  let source_l := normalize source in
  let st0 := score_catalysts it (normalize summary) (0%Z, []) in
  let st1 := score_source source_l st0 in
  signal_score it summary source = score_result st1
  /\ (Text.contains "x.com" source_l = true ->
      fst st1 = (fst st0 + 1)%Z
      /\ snd st1 = (snd st0 ++ [fast_fragment])%list)
  /\ (Text.contains "x.com" source_l = false -> trusted source_l = true ->
      fst st1 = (fst st0 + 2)%Z
      /\ snd st1 = (snd st0 ++ [credible_fragment])%list)
  /\ (Text.contains "x.com" source_l = false -> trusted source_l = false ->
      st1 = st0)
  /\ ~ (In fast_fragment (snd st1) /\ In credible_fragment (snd st1))
  /\ (let credit := (fst (signal_score it summary source) - fst st0)%Z in
      credit = 0%Z \/ credit = 1%Z \/ credit = 2%Z).
Proof.
  intros source_l st0 st1.
  assert (F : fst st1 = (fst st0 + source_credit source_l)%Z)
    by apply score_source_fst.
  assert (S : snd st1
              = (snd st0 ++ (if Text.contains "x.com" source_l
                             then [fast_fragment]
                             else if trusted source_l
                                  then [credible_fragment] else []))%list)
    by apply score_source_snd.
  assert (S0 : snd st0 = [] \/ snd st0 = [catalyst_fragment it (normalize summary)]).
  { unfold st0. rewrite score_catalysts_snd.
    destruct (hits _ _); [now left | now right]. }
  unfold source_credit in F.
  split; [reflexivity |].
  split; [intros X; rewrite X in F, S; auto |].
  split; [intros X T; rewrite X, T in F, S; auto |].
  split.
  { intros X T. rewrite X, T in F, S.
    rewrite Z.add_0_r in F. rewrite app_nil_r in S.
    destruct st1, st0; simpl in *; congruence. }
  split.
  - rewrite S. intros [Hf Hc].
    apply in_app_or in Hf, Hc.
    assert (N : forall f, f = fast_fragment \/ f = credible_fragment ->
                          ~ In f (snd st0)).
    { intros f Hfr Hin.
      destruct S0 as [E | E]; rewrite E in Hin; simpl in Hin;
        [contradiction |].
      destruct Hin as [Hin | []].
      destruct Hfr as [-> | ->]; discriminate Hin. }
    destruct Hf as [Hf | Hf]; [exact (N _ (or_introl eq_refl) Hf) |].
    destruct Hc as [Hc | Hc]; [exact (N _ (or_intror eq_refl) Hc) |].
    destruct (Text.contains "x.com" source_l); [| destruct (trusted source_l)];
      simpl in Hf, Hc; intuition discriminate.
  - cbv zeta. change (signal_score it summary source) with (score_result st1).
    rewrite score_result_fst, F.
    destruct (Text.contains "x.com" source_l); [| destruct (trusted source_l)];
      lia.
Qed.

(** A source that names both tiers is a fast source: one point, not two
    and not three. *)
Example signal_score_both_markers :
  signal_score textual "Quarterly update" "https://x.com/Reuters"
  = (1%Z, "fast signal source (x.com)").
Proof. vm_compute. reflexivity. Qed.

(** C7 (the NVIDIA scenario).  For the summary "NVIDIA beats earnings and
    raises guidance after long-term contract win." and the source
    "Reuters", under any iteration order: the label is positive, "beats" is
    among the positive hits and no negative cue matches; "earnings" and
    "long-term contract" are among the catalyst hits, the catalyst credit
    is the full 3, the trusted source adds 2, and the score is 5. *)
Theorem nvidia_scenario (it : iteration) (Hit : iterates it) :
  let text := normalize nvidia_summary in
  fst (classify_impact it nvidia_summary) = "positive"
  /\ In "beats" (hits (positive_order it) text)
  /\ hits (negative_order it) text = []
  /\ In "earnings" (hits (high_signal_order it) text)
  /\ In "long-term contract" (hits (high_signal_order it) text)
  /\ fst (score_catalysts it text (0%Z, [])) = 3%Z
  /\ source_credit (normalize "Reuters") = 2%Z
  /\ fst (signal_score it nvidia_summary "Reuters") = 5%Z.
Proof.
  intros text.
  pose proof Hit as (Pp & Pn & Ph).
  split; [| split; [| split; [| split; [| split; [| split; [| split]]]]]].
  - rewrite (classify_impact_label it textual Hit iterates_textual).
    vm_compute. reflexivity.
  - apply hits_In. split.
    + eapply Permutation_in; [apply Permutation_sym, Pp |].
      simpl. auto.
    + vm_compute. reflexivity.
  - assert (L : length (hits (negative_order it) text) = 0%nat).
    { rewrite (hits_length_perm text _ _ Pn). vm_compute. reflexivity. }
    destruct (hits (negative_order it) text); [reflexivity | discriminate L].
  - apply hits_In. split.
    + eapply Permutation_in; [apply Permutation_sym, Ph |].
      simpl. auto.
    + vm_compute. reflexivity.
  - apply hits_In. split.
    + eapply Permutation_in; [apply Permutation_sym, Ph |].
      simpl. auto 10.
    + vm_compute. reflexivity.
  - rewrite score_catalysts_fst.
    rewrite (catalyst_credit_iteration it textual Hit iterates_textual).
    vm_compute. reflexivity.
  - vm_compute. reflexivity.
  - rewrite (signal_score_score it textual Hit iterates_textual).
    vm_compute. reflexivity.
Qed.

Lemma nvidia_scenario_witness :
  iterates reversed
  /\ fst (classify_impact reversed nvidia_summary) = "positive"
  /\ fst (signal_score reversed nvidia_summary "Reuters") = 5%Z.
Proof.
  split; [exact iterates_reversed |].
  destruct (nvidia_scenario reversed iterates_reversed)
    as (Hl & _ & _ & _ & _ & _ & _ & Hs).
  split; [exact Hl | exact Hs].
Defined.

(** C8, as the specification states it, fails: the reason string lists
    the matching cues in the iteration order of the set, and two
    admissible orders give two different strings for the same input. *)
Lemma reason_depends_on_iteration :
  iterates textual /\ iterates reversed
  /\ classify_impact textual "Earnings beats estimates"
     = ("positive", "positive cues: beats, beat")
  /\ classify_impact reversed "Earnings beats estimates"
     = ("positive", "positive cues: beat, beats")
  /\ snd (classify_impact textual "Earnings beats estimates")
     <> snd (classify_impact reversed "Earnings beats estimates")
  /\ snd (signal_score textual "Earnings and guidance" "Reuters")
     <> snd (signal_score reversed "Earnings and guidance" "Reuters").
Proof.
  split; [exact iterates_textual |].
  split; [exact iterates_reversed |].
  repeat split; vm_compute; try reflexivity; discriminate.
Qed.

(** C8 (determinism), amended.  The label of [classify_impact], the score
    of [signal_score] and, for [assess], the ranking with the label and
    score of every observation are the same under any two iteration orders
    of the cue sets.  The reason strings are the same as soon as the sets
    concerned are iterated in the same order: the positive and negative
    sets for [classify_impact], the high-signal set for [signal_score], all
    three for [assess]. *)
Theorem deterministic_up_to_iteration (it1 it2 : iteration)
    (Hit1 : iterates it1) (Hit2 : iterates it2) :
  (forall summary,
      fst (classify_impact it1 summary) = fst (classify_impact it2 summary))
  /\ (forall summary source,
         fst (signal_score it1 summary source)
         = fst (signal_score it2 summary source))
  /\ (forall observations,
         map verdict (assess it1 observations)
         = map verdict (assess it2 observations))
  /\ (positive_order it1 = positive_order it2 ->
      negative_order it1 = negative_order it2 ->
      forall summary, classify_impact it1 summary = classify_impact it2 summary)
  /\ (high_signal_order it1 = high_signal_order it2 ->
      forall summary source,
        signal_score it1 summary source = signal_score it2 summary source)
  /\ (positive_order it1 = positive_order it2 ->
      negative_order it1 = negative_order it2 ->
      high_signal_order it1 = high_signal_order it2 ->
      forall observations, assess it1 observations = assess it2 observations).
Proof.
  assert (Hc : positive_order it1 = positive_order it2 ->
               negative_order it1 = negative_order it2 ->
               forall summary,
                 classify_impact it1 summary = classify_impact it2 summary).
  { intros Ep En summary. unfold classify_impact. now rewrite Ep, En. }
  assert (Hs : high_signal_order it1 = high_signal_order it2 ->
               forall summary source,
                 signal_score it1 summary source
                 = signal_score it2 summary source).
  { intros Eh summary source.
    unfold signal_score, score_catalysts. now rewrite Eh. }
  split; [intros; now apply classify_impact_label |].
  split; [intros; now apply signal_score_score |].
  split; [| split; [exact Hc | split; [exact Hs |]]].
  - intros observations. unfold assess. rewrite !assessed_map.
    rewrite !(sorted_reverse_map verdict sort_key verdict_key)
      by reflexivity.
    f_equal. rewrite !map_map. apply map_ext. intros obs.
    unfold verdict.
    rewrite !assess_one_observation, !assess_one_impact,
      !assess_one_signal_score.
    rewrite (classify_impact_label it1 it2 Hit1 Hit2).
    rewrite (signal_score_score it1 it2 Hit1 Hit2).
    reflexivity.
  - intros Ep En Eh observations.
    unfold assess. rewrite !assessed_map. f_equal.
    apply map_ext. intros obs. unfold assess_one.
    now rewrite (Hc Ep En), (Hs Eh).
Qed.

Lemma deterministic_up_to_iteration_witness :
  iterates textual /\ iterates reversed
  /\ fst (classify_impact textual "Earnings beats estimates")
     = fst (classify_impact reversed "Earnings beats estimates")
  /\ fst (signal_score textual "Earnings and guidance" "Reuters")
     = fst (signal_score reversed "Earnings and guidance" "Reuters").
Proof.
  split; [exact iterates_textual |].
  split; [exact iterates_reversed |].
  destruct (deterministic_up_to_iteration textual reversed
              iterates_textual iterates_reversed) as (Hl & Hs & _).
  split; [apply Hl | apply Hs].
Defined.

(** C9 (default reason).  The reason of [signal_score] is "limited
    specificity" if and only if the score is 0; a score other than 0
    carries the join by "; " of a non-empty list of fragments, each of
    them the catalyst fragment or one of the two source fragments. *)
Theorem limited_specificity_iff_zero (it : iteration) (summary source : string) :
  let result := signal_score it summary source in
  (snd result = "limited specificity" <-> fst result = 0%Z)
  /\ (fst result <> 0%Z ->
      exists fragments,
        fragments <> []
        /\ Forall (is_fragment it (normalize summary)) fragments
        /\ snd result = Text.join "; " fragments).
Proof.
  intros result.
  pose proof (signal_score_well_scored it summary source) as (Hpos & Hz & Hf).
  set (st := score_source (normalize source)
               (score_catalysts it (normalize summary) (0%Z, []))) in *.
  assert (Er : result = score_result st) by reflexivity.
  rewrite Er, score_result_fst.
  split.
  - rewrite (score_result_default it (normalize summary) st Hf).
    symmetry. exact Hz.
  - intros Hne. exists (snd st).
    assert (Hn : snd st <> []) by (intros E; apply Hne, Hz, E).
    split; [exact Hn | split; [exact Hf |]].
    destruct st as [score [| r reasons]]; [contradiction | reflexivity].
Qed.

(** C10 ("beat" inside "beats").  Under any iteration order, a summary
    whose normalized text contains "beats" has the two distinct positive
    hits "beats" and "beat"; with exactly one matching negative cue the
    label is positive. *)
Theorem beats_outvotes_one_negative (it : iteration) (Hit : iterates it)
    (summary : string)
    (Hbeats : Text.contains "beats" (normalize summary) = true) :
  In "beats" (hits (positive_order it) (normalize summary))
  /\ In "beat" (hits (positive_order it) (normalize summary))
  /\ (2 <= length (hits (positive_order it) (normalize summary)))%nat
  /\ (length (hits (negative_order it) (normalize summary)) = 1%nat ->
      fst (classify_impact it summary) = "positive").
Proof.
  destruct Hit as (Pp & _).
  assert (Hbeat : Text.contains "beat" (normalize summary) = true)
    by exact (contains_app_l "beat" "s" _ Hbeats).
  assert (I1 : In "beats" (positive_order it))
    by (eapply Permutation_in; [apply Permutation_sym, Pp | simpl; auto]).
  assert (I2 : In "beat" (positive_order it))
    by (eapply Permutation_in; [apply Permutation_sym, Pp | simpl; auto]).
  assert (L : (2 <= length (hits (positive_order it) (normalize summary)))%nat)
    by (apply (hits_two _ "beats" "beat"); auto; discriminate).
  split; [apply hits_In; auto |].
  split; [apply hits_In; auto |].
  split; [exact L |].
  intros Hneg.
  destruct (classify_impact_cases it summary)
    as [(_ & E) | [(L' & _) | (L' & _)]]; [exact E | lia | lia].
Qed.

Lemma beats_outvotes_one_negative_witness :
  iterates textual
  /\ Text.contains "beats" (normalize "Acme BEATS estimates despite lawsuit") = true
  /\ length (hits NEGATIVE_CUES (normalize "Acme BEATS estimates despite lawsuit"))
     = 1%nat
  /\ fst (classify_impact textual "Acme BEATS estimates despite lawsuit")
     = "positive".
Proof.
  split; [exact iterates_textual |].
  split; [vm_compute; reflexivity |].
  split; [vm_compute; reflexivity |].
  destruct (beats_outvotes_one_negative textual iterates_textual
              "Acme BEATS estimates despite lawsuit")
    as (_ & _ & _ & H); [vm_compute; reflexivity |].
  apply H. vm_compute. reflexivity.
Defined.

(* ================================================================== *)
(** ** Further facts about the text primitives                         *)
(* ================================================================== *)

Section StripLowerFacts.

Import Text.

Lemma string_app_assoc (a b c : string) : (a ++ b) ++ c = a ++ b ++ c.
Proof. induction a as [| x a IH]; simpl; congruence. Qed.

Lemma string_app_nil_r (a : string) : a ++ "" = a.
Proof. induction a as [| x a IH]; simpl; congruence. Qed.

Lemma is_space_lower_char (c : ascii) : is_space (lower_char c) = is_space c.
Proof.
  destruct c as [[] [] [] [] [] [] [] []]; vm_compute; reflexivity.
Qed.

Lemma lower_char_idem (c : ascii) : lower_char (lower_char c) = lower_char c.
Proof.
  destruct c as [[] [] [] [] [] [] [] []]; vm_compute; reflexivity.
Qed.

Lemma lower_idem (s : string) : lower (lower s) = lower s.
Proof.
  induction s as [| c s IH]; simpl; [reflexivity |].
  now rewrite lower_char_idem, IH.
Qed.

Lemma lower_app (a b : string) : lower (a ++ b) = lower a ++ lower b.
Proof. induction a as [| c a IH]; simpl; congruence. Qed.

Lemma lower_lstrip (s : string) : lower (lstrip s) = lstrip (lower s).
Proof.
  induction s as [| c s IH]; simpl; [reflexivity |].
  rewrite is_space_lower_char.
  destruct (is_space c); [exact IH | reflexivity].
Qed.

Lemma lower_rstrip (s : string) : lower (rstrip s) = rstrip (lower s).
Proof.
  induction s as [| c s IH]; simpl; [reflexivity |].
  rewrite <- IH, is_space_lower_char.
  destruct (rstrip s) as [| d kept]; simpl; [| reflexivity].
  destruct (is_space c); reflexivity.
Qed.

Lemma lower_strip (s : string) : lower (strip s) = strip (lower s).
Proof. unfold strip. now rewrite lower_rstrip, lower_lstrip. Qed.

Lemma lstrip_clean_start (s : string) : clean_start (lstrip s).
Proof.
  induction s as [| c s IH]; simpl; [exact I |].
  destruct (is_space c) eqn:E; [exact IH | exact E].
Qed.

Lemma lstrip_of_clean_start (s : string) : clean_start s -> lstrip s = s.
Proof. destruct s as [| c s]; simpl; [reflexivity | now intros ->]. Qed.

Lemma rstrip_clean_start (s : string) : clean_start s -> clean_start (rstrip s).
Proof.
  destruct s as [| c s]; simpl; [trivial |].
  intros E. destruct (rstrip s); [rewrite E |]; exact E.
Qed.

Lemma blank_rstrip (s : string) : blank s = true <-> rstrip s = "".
Proof.
  induction s as [| c s IH]; simpl; [tauto |].
  rewrite andb_true_iff, IH.
  destruct (rstrip s) as [| d kept].
  - destruct (is_space c); split; intros H;
      [reflexivity | tauto | destruct H; discriminate | discriminate].
  - split; [intros [_ H]; discriminate | discriminate].
Qed.

Lemma blank_lstrip (s : string) : blank s = true -> lstrip s = "".
Proof.
  induction s as [| c s IH]; simpl; [reflexivity |].
  rewrite andb_true_iff. intros [-> H]. auto.
Qed.

Lemma rstrip_idem (s : string) : rstrip (rstrip s) = rstrip s.
Proof.
  induction s as [| c s IH]; simpl; [reflexivity |].
  destruct (rstrip s) as [| d kept] eqn:E.
  - destruct (is_space c) eqn:Ec; simpl; [reflexivity | now rewrite Ec].
  - change (rstrip (String c (String d kept)))
      with (match rstrip (String d kept) with
            | EmptyString =>
                if is_space c then EmptyString else String c EmptyString
            | String x y => String c (String x y)
            end).
    rewrite IH. reflexivity.
Qed.

Lemma strip_idem (s : string) : strip (strip s) = strip s.
Proof.
  unfold strip.
  rewrite (lstrip_of_clean_start (rstrip (lstrip s)))
    by apply rstrip_clean_start, lstrip_clean_start.
  apply rstrip_idem.
Qed.

Lemma lstrip_blank_app (l t : string) :
  blank l = true -> lstrip (l ++ t) = lstrip t.
Proof.
  induction l as [| c l IH]; simpl; [reflexivity |].
  rewrite andb_true_iff. intros [-> H]. auto.
Qed.

Lemma lstrip_app (s r : string) :
  lstrip (s ++ r) = if blank s then lstrip r else lstrip s ++ r.
Proof.
  induction s as [| c s IH]; simpl; [reflexivity |].
  destruct (is_space c); simpl; [exact IH | reflexivity].
Qed.

Lemma rstrip_app (a b : string) :
  rstrip (a ++ b) = if blank b then rstrip a else a ++ rstrip b.
Proof.
  induction a as [| c a IH]; simpl.
  - destruct (blank b) eqn:E; [now apply blank_rstrip | reflexivity].
  - rewrite IH. destruct (blank b) eqn:E; [reflexivity |].
    destruct (a ++ rstrip b) as [| d kept] eqn:Ea; [| reflexivity].
    exfalso.
    assert (Hr : rstrip b = "") by (destruct a; [exact Ea | discriminate Ea]).
    apply blank_rstrip in Hr. congruence.
Qed.

Lemma strip_padding (l s r : string) :
  blank l = true -> blank r = true -> strip (l ++ s ++ r) = strip s.
Proof.
  intros Hl Hr. unfold strip.
  rewrite (lstrip_blank_app l _ Hl), lstrip_app.
  destruct (blank s) eqn:Es.
  - rewrite (blank_lstrip r Hr), (blank_lstrip s Es). reflexivity.
  - rewrite rstrip_app, Hr. reflexivity.
Qed.

Lemma normalize_idem (s : string) : normalize (normalize s) = normalize s.
Proof.
  unfold normalize.
  now rewrite <- lower_strip, lower_idem, strip_idem.
Qed.

Lemma normalize_insensitive (l r s1 s2 : string) :
  blank l = true -> blank r = true -> lower s1 = lower s2 ->
  normalize (l ++ s1 ++ r) = normalize s2.
Proof.
  intros Hl Hr Hs. unfold normalize.
  rewrite (strip_padding l s1 r Hl Hr), !lower_strip, Hs. reflexivity.
Qed.

End StripLowerFacts.

Section OccurrenceFacts.

Import Text.

Lemma prefix_occurs (n t : string) :
  String.prefix n t = true <-> exists after, t = n ++ after.
Proof.
  revert t. induction n as [| c n IH]; intros t.
  - split; [intros _; exists t; reflexivity | intros _; destruct t; reflexivity].
  - destruct t as [| d t]; simpl.
    + split; [discriminate | intros [after H]; discriminate H].
    + destruct (ascii_dec c d) as [-> | Hne].
      * rewrite IH. split; intros [after H]; exists after;
          [now rewrite H | now injection H].
      * split; [discriminate | intros [after H]; injection H; congruence].
Qed.

(** [contains] decides occurrence as a substring. *)
Lemma contains_occurs (n t : string) :
  contains n t = true <-> occurs_in n t.
Proof.
  unfold occurs_in. induction t as [| d t IH].
  - cbn [contains]. rewrite orb_false_r, prefix_occurs. split.
    + intros [after H]. exists "", after. exact H.
    + intros ([| x before] & after & H); [now exists after | discriminate H].
  - cbn [contains]. rewrite orb_true_iff, prefix_occurs, IH. split.
    + intros [[after H] | (before & after & H)].
      * exists "", after. exact H.
      * exists (String d before), after. simpl. now rewrite H.
    + intros ([| x before] & after & H).
      * left. now exists after.
      * right. exists before, after. simpl in H. now injection H.
Qed.

Lemma occurs_in_lstrip (cue t : string) :
  clean_start cue -> cue <> "" -> occurs_in cue t -> occurs_in cue (lstrip t).
Proof.
  intros Hc Hn (before & after & ->).
  induction before as [| d before IH]; simpl.
  - rewrite lstrip_of_clean_start.
    + exists "", after. reflexivity.
    + destruct cue; [contradiction | exact Hc].
  - destruct (is_space d); [exact IH |].
    exists (String d before), after. reflexivity.
Qed.

Lemma occurs_in_rstrip (cue t : string) :
  rstrip cue = cue -> cue <> "" -> occurs_in cue t -> occurs_in cue (rstrip t).
Proof.
  intros Hc Hn (before & after & ->).
  assert (Hb : blank (cue ++ after) = false).
  { destruct (blank (cue ++ after)) eqn:E; [| reflexivity].
    apply blank_rstrip in E. rewrite rstrip_app in E.
    destruct (blank after); [congruence |].
    destruct cue; [contradiction | discriminate E]. }
  rewrite rstrip_app, Hb, rstrip_app.
  destruct (blank after).
  - rewrite Hc. exists before, "". now rewrite string_app_nil_r.
  - exists before, (rstrip after). reflexivity.
Qed.

Lemma normalized_strip (cue : string) : normalized cue -> strip cue = cue.
Proof.
  unfold normalized, normalize. intros H.
  rewrite <- H at 1. rewrite <- lower_strip, strip_idem. exact H.
Qed.

Lemma normalized_lower (cue : string) : normalized cue -> lower cue = cue.
Proof.
  unfold normalized, normalize. intros H.
  rewrite <- H at 1. rewrite lower_idem. exact H.
Qed.

Lemma strip_fixed (cue : string) :
  strip cue = cue -> clean_start cue /\ rstrip cue = cue.
Proof.
  unfold strip. intros H.
  assert (C : clean_start cue)
    by (rewrite <- H; apply rstrip_clean_start, lstrip_clean_start).
  split; [exact C |].
  now rewrite (lstrip_of_clean_start cue C) in H.
Qed.

(** A normalized, non-empty cue that occurs in a text in any letter case
    occurs in the normalized text. *)
Lemma contains_normalize (cue w before after : string) :
  normalized cue -> cue <> "" -> lower w = cue ->
  contains cue (normalize (before ++ w ++ after)) = true.
Proof.
  intros Hn Hne Hw.
  destruct (strip_fixed cue (normalized_strip cue Hn)) as [Hc Hr].
  unfold normalize. rewrite lower_strip, !lower_app, Hw.
  apply contains_occurs. unfold strip.
  apply occurs_in_rstrip; [exact Hr | exact Hne |].
  apply occurs_in_lstrip; [exact Hc | exact Hne |].
  now exists (lower before), (lower after).
Qed.

End OccurrenceFacts.

(* ================================================================== *)
(** ** Further properties: normalization and matching                  *)
(* ================================================================== *)

(** X1.  [normalize] is idempotent, and its result is a fixed point of
    both [strip] and [lower]: it has no white space at either end and no
    letter that [lower] would change. *)
Theorem normalize_idempotent (s : string) :
  normalize (normalize s) = normalize s
  /\ Text.strip (normalize s) = normalize s
  /\ Text.lower (normalize s) = normalize s.
Proof.
  split; [apply normalize_idem |].
  split.
  - apply normalized_strip. apply normalize_idem.
  - apply normalized_lower. apply normalize_idem.
Qed.

(** X2.  The classifier and the scorer do not see letter case nor white
    space around their arguments: two summaries (and two sources) that
    differ only in the case of their letters and in blank padding are
    classified and scored alike, reasons included. *)
Theorem case_and_padding_insensitive (it : iteration)
    (l r s1 s2 l' r' src1 src2 : string)
    (Hl : blank l = true) (Hr : blank r = true)
    (Hs : Text.lower s1 = Text.lower s2)
    (Hl' : blank l' = true) (Hr' : blank r' = true)
    (Hsrc : Text.lower src1 = Text.lower src2) :
  classify_impact it (l ++ s1 ++ r) = classify_impact it s2
  /\ signal_score it (l ++ s1 ++ r) (l' ++ src1 ++ r')
     = signal_score it s2 src2.
Proof.
  unfold classify_impact, signal_score.
  rewrite (normalize_insensitive l r s1 s2 Hl Hr Hs).
  rewrite (normalize_insensitive l' r' src1 src2 Hl' Hr' Hsrc).
  split; reflexivity.
Qed.

Lemma case_and_padding_insensitive_witness :
  classify_impact textual "  RECORD Revenue  " = classify_impact textual "record revenue"
  /\ signal_score textual "  RECORD Revenue  " " WSJ "
     = signal_score textual "record revenue" "wsj".
Proof.
  apply (case_and_padding_insensitive textual "  " "  " "RECORD Revenue"
           "record revenue" " " " " "WSJ" "wsj");
    vm_compute; reflexivity.
Defined.

(** X3.  Matching is by occurrence anywhere in the text: a cue that
    occurs in the summary in any letter case, also inside a longer word,
    is among the hits of its set, for every cue list whose members are
    normalized and non-empty; the three cue sets, the trusted-domain
    markers and "x.com" are such lists. *)
Theorem cue_matches_anywhere (cues : list string) (cue w before after : string)
    (Hin : In cue cues) (Hn : normalized cue) (Hne : cue <> "")
    (Hw : Text.lower w = cue) :
  In cue (hits cues (normalize (before ++ w ++ after)))
  /\ Forall (fun c => normalized c /\ c <> "")
       (POSITIVE_CUES ++ NEGATIVE_CUES ++ HIGH_SIGNAL_CUES
          ++ TRUSTED_DOMAINS ++ ["x.com"])%list.
Proof.
  split.
  - apply hits_In. split; [exact Hin |].
    now apply contains_normalize.
  - repeat (constructor; [split; [vm_compute; reflexivity | discriminate] |]).
    constructor.
Qed.

Lemma cue_matches_anywhere_witness :
  In "miss" (hits NEGATIVE_CUES (normalize "Court disMISSes the complaint")).
Proof.
  apply (cue_matches_anywhere NEGATIVE_CUES "miss" "MISS" "Court dis"
           "es the complaint");
    [simpl; auto | vm_compute; reflexivity | discriminate
    | vm_compute; reflexivity].
Defined.

(** A summary that reports a dismissal is classified negative. *)
Example classify_dismissed :
  classify_impact textual "Court dismisses the complaint"
  = ("negative", "negative cues: miss").
Proof. vm_compute. reflexivity. Qed.

(* ================================================================== *)
(** ** Further properties: scoring and ranking                         *)
(* ================================================================== *)

(** X4.  What the score says about its causes.  A score of 3 or more,
    the threshold of the action filter, needs at least one matching
    catalyst cue, and at least two when the source is x.com; a source on
    x.com never scores above 4; the score is 5 exactly when three or more
    catalyst cues match and the source is a trusted one that does not
    contain "x.com". *)
Theorem score_thresholds (it : iteration) (summary source : string) :
  let score := fst (signal_score it summary source) in
  let matches := length (hits (high_signal_order it) (normalize summary)) in
  let source_l := normalize source in
  ((3 <= score)%Z -> (1 <= matches)%nat)
  /\ ((3 <= score)%Z -> Text.contains "x.com" source_l = true ->
      (2 <= matches)%nat)
  /\ (Text.contains "x.com" source_l = true -> (score <= 4)%Z)
  /\ (score = 5%Z <->
      (3 <= matches)%nat
      /\ Text.contains "x.com" source_l = false
      /\ trusted source_l = true).
Proof.
  intros score matches source_l.
  assert (E : score = (Z.min 3 (Z.of_nat matches) + source_credit source_l)%Z)
    by apply signal_score_fst.
  unfold source_credit in E.
  destruct (Text.contains "x.com" source_l); [| destruct (trusted source_l)];
    repeat split; intros; try lia; try discriminate;
    try (destruct H as (? & ? & ?); try discriminate; lia).
Qed.

Lemma assess_In (it : iteration) (observations : list Observation.t)
    (a : Assessment.t) :
  In a (assess it observations) ->
  exists obs, In obs observations /\ a = assess_one it obs.
Proof.
  intros Ha.
  eapply Permutation_in in Ha; [| apply assess_perm].
  apply in_map_iff in Ha. destruct Ha as (obs & <- & Hobs).
  now exists obs.
Qed.

(** X5.  Every Assessment that [assess] returns is the one computed for
    its own observation; its impact is one of the three labels, its score
    lies between 0 and 5, and it is directional exactly when the label is
    positive or negative. *)
Theorem assess_output_invariant (it : iteration)
    (observations : list Observation.t) :
  Forall (fun a =>
            a = assess_one it (Assessment.observation a)
            /\ In (Assessment.observation a) observations
            /\ In (Assessment.impact a) ["positive"; "negative"; mixed_unclear]
            /\ (0 <= Assessment.signal_score a <= 5)%Z
            /\ (is_directional a = true <->
                Assessment.impact a = "positive"
                \/ Assessment.impact a = "negative"))
    (assess it observations).
Proof.
  apply Forall_forall. intros a Ha.
  destruct (assess_In it observations a Ha) as (obs & Hobs & ->).
  rewrite assess_one_observation.
  split; [reflexivity |]. split; [exact Hobs |].
  assert (L : In (Assessment.impact (assess_one it obs))
                ["positive"; "negative"; mixed_unclear]).
  { rewrite assess_one_impact.
    destruct (classify_impact_cases it (Observation.summary obs))
      as [(_ & E) | [(_ & E) | (_ & E)]]; rewrite E; simpl; auto. }
  split; [exact L |]. split.
  - rewrite assess_one_signal_score, signal_score_fst.
    pose proof (catalyst_credit_range it
                  (normalize (Observation.summary obs))).
    pose proof (source_credit_range (normalize (Observation.source obs))).
    lia.
  - unfold is_directional.
    destruct L as [<- | [<- | [<- | []]]]; simpl; split; intros H;
      auto; try discriminate; destruct H as [H | H]; discriminate H.
Qed.

Lemma sorted_reverse_of_descending {A : Type} (key_of : A -> Sorting.key)
    (l : list A) :
  StronglySorted (fun a b => Sorting.key_ge (key_of a) (key_of b)) l ->
  Sorting.sorted_reverse key_of l = l.
Proof.
  induction 1 as [| x l Hl IH Hx]; [reflexivity |].
  rewrite sorted_reverse_cons, IH.
  destruct l as [| y l]; [reflexivity |].
  simpl. apply Forall_inv in Hx. unfold Sorting.key_ge in Hx.
  now rewrite Hx.
Qed.

(** X6.  Ranking is idempotent: assessing the observations in the order
    in which [assess] ranked them gives the same list again. *)
Theorem assess_idempotent (it : iteration) (observations : list Observation.t) :
  assess it (map Assessment.observation (assess it observations))
  = assess it observations.
Proof.
  assert (E : map (assess_one it)
                (map Assessment.observation (assess it observations))
              = assess it observations).
  { rewrite map_map.
    assert (Hinv : Forall (fun a => a = assess_one it (Assessment.observation a))
                     (assess it observations)).
    { apply Forall_forall. intros a Ha.
      destruct (assess_In it observations a Ha) as (obs & _ & ->).
      now rewrite assess_one_observation. }
    induction Hinv as [| a l Ha _ IH]; [reflexivity |].
    cbn [map]. rewrite IH, <- Ha. reflexivity. }
  unfold assess at 1. rewrite assessed_map, E.
  apply sorted_reverse_of_descending, assess_descending.
Qed.

Lemma key_ge_antisym (k1 k2 : Sorting.key) :
  Sorting.key_ge k1 k2 -> Sorting.key_ge k2 k1 -> k1 = k2.
Proof.
  rewrite !key_ge_spec.
  destruct k1 as [z1 b1], k2 as [z2 b2]; cbn [fst snd].
  destruct b1, b2; simpl; intuition (try lia; try congruence).
Qed.

Lemma key_ge_refl (k : Sorting.key) : Sorting.key_ge k k.
Proof. apply key_lt_irrefl. Qed.

(** Two descending lists of keys with the same members are equal. *)
Lemma descending_keys_unique (k1 k2 : list Sorting.key) :
  StronglySorted Sorting.key_ge k1 -> StronglySorted Sorting.key_ge k2 ->
  Permutation k1 k2 -> k1 = k2.
Proof.
  intros H1. revert k2.
  induction H1 as [| x k1 H1 IH Hx]; intros k2 H2 P.
  - apply Permutation_nil in P. now subst.
  - destruct k2 as [| y k2];
      [apply Permutation_sym, Permutation_nil in P; discriminate |].
    apply StronglySorted_inv in H2. destruct H2 as [H2 Hy].
    assert (E : x = y).
    { rewrite Forall_forall in Hx, Hy.
      assert (Ix : In x (y :: k2))
        by (eapply Permutation_in; [exact P | now left]).
      assert (Iy : In y (x :: k1))
        by (eapply Permutation_in; [apply Permutation_sym, P | now left]).
      destruct Ix as [Ix | Ix]; [now symmetry |].
      destruct Iy as [Iy | Iy]; [exact Iy |].
      apply key_ge_antisym; auto. }
    subst y. f_equal. apply IH; [exact H2 |].
    eapply Permutation_cons_inv, P.
Qed.

Lemma descending_map_keys {A : Type} (key_of : A -> Sorting.key) (l : list A) :
  StronglySorted (fun a b => Sorting.key_ge (key_of a) (key_of b)) l ->
  StronglySorted Sorting.key_ge (map key_of l).
Proof.
  induction 1 as [| x l Hl IH Hx]; simpl; constructor; [exact IH |].
  apply Forall_map. exact Hx.
Qed.

(** X7.  The order of the input matters for ties only: two inputs with
    the same observations, in whatever order, are ranked into two lists
    with the same Assessments and the same sequence of keys
    [(signal_score, is_directional)]. *)
Theorem assess_input_order (it : iteration)
    (observations1 observations2 : list Observation.t)
    (Hperm : Permutation observations1 observations2) :
  Permutation (assess it observations1) (assess it observations2)
  /\ map sort_key (assess it observations1)
     = map sort_key (assess it observations2).
Proof.
  assert (P : Permutation (assess it observations1) (assess it observations2)).
  { eapply perm_trans; [apply assess_perm |].
    eapply perm_trans; [apply Permutation_map, Hperm |].
    apply Permutation_sym, assess_perm. }
  split; [exact P |].
  apply descending_keys_unique.
  - apply descending_map_keys, assess_descending.
  - apply descending_map_keys, assess_descending.
  - apply Permutation_map, P.
Qed.

Lemma assess_input_order_witness :
  map sort_key
    (assess textual
       [ Observation.mk "t" "A" "blog" "u" "nothing";
         Observation.mk "t" "B" "Reuters" "u" "growth" ])
  = map sort_key
      (assess textual
         [ Observation.mk "t" "B" "Reuters" "u" "growth";
           Observation.mk "t" "A" "blog" "u" "nothing" ]).
Proof.
  apply (assess_input_order textual). apply perm_swap.
Defined.

(* ================================================================== *)
(** ** Facts about the report                                          *)
(* ================================================================== *)

Section ReportFacts.

Lemma extend_items_app (idx : Z) (l : list Assessment.t) (lines : list string) :
  extend_items idx l lines = (lines ++ extend_items idx l [])%list.
Proof.
  revert idx lines. induction l as [| a l IH]; intros idx lines; simpl.
  - now rewrite app_nil_r.
  - rewrite IH, (IH _ (item_lines idx a)), app_assoc. reflexivity.
Qed.

Lemma extend_items_cons (idx : Z) (a : Assessment.t) (l : list Assessment.t) :
  extend_items idx (a :: l) []
  = (item_lines idx a ++ extend_items (idx + 1) l [])%list.
Proof. cbn [extend_items app]. apply extend_items_app. Qed.

Lemma extend_items_length (idx : Z) (l : list Assessment.t) :
  length (extend_items idx l []) = (3 * length l)%nat.
Proof.
  revert idx. induction l as [| a l IH]; intros idx; [reflexivity |].
  rewrite extend_items_cons, length_app, IH. simpl. lia.
Qed.

Lemma extend_items_block (idx : Z) (l : list Assessment.t) (k : nat)
    (a : Assessment.t) :
  nth_error l k = Some a ->
  firstn 3 (skipn (3 * k) (extend_items idx l [])) = item_lines (idx + Z.of_nat k) a.
Proof.
  revert idx k. induction l as [| b l IH]; intros idx k Hk.
  - destruct k; discriminate Hk.
  - rewrite extend_items_cons. destruct k as [| k].
    + injection Hk as ->. rewrite Z.add_0_r. reflexivity.
    + replace (3 * S k)%nat with (S (S (S (3 * k)))) by lia.
      cbn [item_lines app skipn].
      rewrite (IH (idx + 1)%Z k Hk). f_equal. lia.
Qed.

Lemma firstn_skipn_app {A : Type} (n m : nat) (l1 l2 : list A) :
  (m + n <= length l1)%nat ->
  firstn n (skipn m (l1 ++ l2)) = firstn n (skipn m l1).
Proof.
  intros H. rewrite skipn_app, firstn_app, length_skipn.
  replace (n - (length l1 - m))%nat with 0%nat by lia.
  replace (m - length l1)%nat with 0%nat by lia.
  cbn [firstn]. now rewrite app_nil_r.
Qed.

Lemma report_lines_nonempty (now : string) (l : list Assessment.t) :
  l <> [] ->
  report_lines now l
  = (report_header now ++ extend_items 1 l [] ++ action_filter)%list.
Proof.
  intros Hl. unfold report_lines. destruct l as [| a l]; [contradiction |].
  rewrite extend_items_app, <- app_assoc. reflexivity.
Qed.

(** The three lines of the block of the Assessment at position [k]. *)
Lemma report_block (now : string) (l : list Assessment.t) (k : nat)
    (a : Assessment.t) :
  nth_error l k = Some a ->
  firstn 3 (skipn (4 + 3 * k) (report_lines now l))
  = item_lines (Z.of_nat k + 1) a.
Proof.
  intros Hk.
  assert (Hl : l <> []) by (intros ->; destruct k; discriminate Hk).
  rewrite (report_lines_nonempty now l Hl).
  change (skipn (4 + 3 * k)
            (report_header now ++ extend_items 1 l [] ++ action_filter))
    with (skipn (3 * k) (extend_items 1 l [] ++ action_filter)).
  rewrite firstn_skipn_app.
  - rewrite (extend_items_block 1 l k a Hk). f_equal. lia.
  - rewrite extend_items_length.
    assert (k < length l)%nat by (apply nth_error_Some; congruence). lia.
Qed.

Lemma firstn_skipn_nth_error {A : Type} (n : nat) (l : list A) (x y z : A) :
  firstn 3 (skipn n l) = [x; y; z] ->
  nth_error l n = Some x
  /\ nth_error l (S n) = Some y
  /\ nth_error l (S (S n)) = Some z.
Proof.
  revert l. induction n as [| n IH]; intros l H.
  - destruct l as [| a [| b [| c l]]]; try discriminate H.
    injection H as -> -> ->. auto.
  - destruct l as [| a l]; [discriminate H |]. apply (IH l H).
Qed.

Lemma occurs_in_refl (x : string) : occurs_in x x.
Proof. exists "", "". now rewrite string_app_nil_r. Qed.

Lemma occurs_in_head (x t : string) : occurs_in x (x ++ t).
Proof. exists "", t. reflexivity. Qed.

Lemma occurs_in_app_r (x p t : string) : occurs_in x t -> occurs_in x (p ++ t).
Proof.
  intros (before & after & ->). exists (p ++ before), after.
  now rewrite string_app_assoc.
Qed.

Lemma occurs_in_app_l (x t p : string) : occurs_in x t -> occurs_in x (t ++ p).
Proof.
  intros (before & after & ->). exists before, (after ++ p).
  now rewrite !string_app_assoc.
Qed.

Lemma occurs_in_trans (x y t : string) :
  occurs_in x y -> occurs_in y t -> occurs_in x t.
Proof.
  intros (b1 & a1 & ->) (b2 & a2 & ->).
  exists (b2 ++ b1), (a1 ++ a2). now rewrite !string_app_assoc.
Qed.

(** Every part occurs in the joined string. *)
Lemma occurs_in_join (sep x : string) (parts : list string) :
  In x parts -> occurs_in x (Text.join sep parts).
Proof.
  induction parts as [| y parts IH]; [contradiction |].
  intros [-> | Hin].
  - destruct parts as [| z parts]; [apply occurs_in_refl |].
    rewrite join_cons_cons. apply occurs_in_head.
  - destruct parts as [| z parts]; [contradiction |].
    rewrite join_cons_cons. apply occurs_in_app_r, occurs_in_app_r, IH, Hin.
Qed.

(** The lines of every Assessment are among the lines of the report. *)
Lemma extend_items_In (idx : Z) (l : list Assessment.t) (a : Assessment.t) :
  In a l ->
  exists i, incl (item_lines i a) (extend_items idx l []).
Proof.
  revert idx. induction l as [| b l IH]; intros idx; [contradiction |].
  rewrite extend_items_cons. intros [-> | Hin].
  - exists idx. apply incl_appl, incl_refl.
  - destruct (IH (idx + 1)%Z Hin) as (i & Hi).
    exists i. apply incl_appr, Hi.
Qed.

End ReportFacts.

Lemma assess_one_range (it : iteration) (obs : Observation.t) :
  In (Assessment.impact (assess_one it obs)) ["positive"; "negative"; mixed_unclear]
  /\ (0 <= Assessment.signal_score (assess_one it obs) <= 5)%Z.
Proof.
  split.
  - rewrite assess_one_impact.
    destruct (classify_impact_cases it (Observation.summary obs))
      as [(_ & E) | [(_ & E) | (_ & E)]]; rewrite E; simpl; auto.
  - rewrite assess_one_signal_score, signal_score_fst.
    pose proof (catalyst_credit_range it
                  (normalize (Observation.summary obs))).
    pose proof (source_credit_range (normalize (Observation.source obs))).
    lia.
Qed.

(* ================================================================== *)
(** ** Further properties: the report                                  *)
(* ================================================================== *)

(** X8.  Layout of a report with Assessments.  The list of lines is the
    four header lines, three lines per Assessment and the four lines of
    the action filter; the block of the Assessment at position [k] of the
    input (counted from 0) starts at line [4 + 3k] and carries the number
    [k + 1]: the report shows the Assessments in the order given, numbered
    from 1. *)
Theorem report_layout (now : string) (assessments : list Assessment.t)
    (k : nat) (a : Assessment.t)
    (Hk : nth_error assessments k = Some a) :
  let lines := report_lines now assessments in
  length lines = (8 + 3 * length assessments)%nat
  /\ firstn 4 lines = report_header now
  /\ firstn 3 (skipn (4 + 3 * k) lines) = item_lines (Z.of_nat k + 1) a
  /\ skipn (4 + 3 * length assessments) lines = action_filter.
Proof.
  intros lines.
  assert (Hl : assessments <> []) by (intros ->; destruct k; discriminate Hk).
  split; [| split; [| split]].
  - unfold lines. rewrite (report_lines_nonempty now assessments Hl).
    rewrite !length_app, extend_items_length. simpl. lia.
  - unfold lines. rewrite (report_lines_nonempty now assessments Hl).
    reflexivity.
  - apply report_block, Hk.
  - unfold lines. rewrite (report_lines_nonempty now assessments Hl).
    change (skipn (4 + 3 * length assessments)
              (report_header now ++ extend_items 1 assessments []
                 ++ action_filter))
      with (skipn (3 * length assessments)
              (extend_items 1 assessments [] ++ action_filter)).
    rewrite skipn_app, extend_items_length, Nat.sub_diag, skipn_all2
      by (rewrite extend_items_length; lia).
    reflexivity.
Qed.

Lemma report_layout_witness :
  firstn 3
    (skipn 7
       (report_lines "2026-01-01 09:00 UTC"
          (assess textual
             [ Observation.mk "Space exploration" "Rocket Lab" "x.com" "u1"
                 "Rocket Lab delay reported for next launch window.";
               Observation.mk "AI hardware" "NVIDIA" "Reuters" "u2"
                 nvidia_summary ])))
  = [ "2. [Space exploration] Rocket Lab -> NEGATIVE (signal 1/5)";
      "   Why: negative cues: delay; fast signal source (x.com).";
      "   Source: x.com (u1)" ].
Proof.
  refine (eq_trans
            (proj1 (proj2 (proj2
               (report_layout "2026-01-01 09:00 UTC" _ 1 _ _)))) _);
    vm_compute; reflexivity.
Defined.

(** X9.  The two shapes of the report.  Without Assessments the lines are
    the header followed by "No observations supplied." and nothing else;
    the line "Action filter:" is present exactly when there is at least
    one Assessment, and the report ends with "No observations supplied."
    exactly when there is none. *)
Theorem report_empty_or_filtered (now : string) (assessments : list Assessment.t) :
  let lines := report_lines now assessments in
  (assessments = [] ->
   lines = (report_header now ++ ["No observations supplied."])%list)
  /\ (In "Action filter:" lines <-> assessments <> [])
  /\ (last lines "" = "No observations supplied." <-> assessments = []).
Proof.
  intros lines. split; [intros ->; reflexivity |].
  destruct assessments as [| a l].
  - split; split; try reflexivity; try congruence.
    unfold lines. simpl. intuition discriminate.
  - assert (Hl : a :: l <> []) by discriminate.
    unfold lines. rewrite (report_lines_nonempty now (a :: l) Hl).
    split; split; try discriminate; intros H.
    + apply in_or_app. right. apply in_or_app. right. simpl. auto.
    + exfalso. revert H.
      change action_filter
        with ([""; "Action filter:";
               "- Focus only on items with signal >=3 and clear positive/negative direction."]
              ++ ["- Ignore narrative-only items without earnings, regulation, supply, or contract implications."])%list.
      rewrite !app_assoc, last_last. discriminate.
Qed.

(** X10.  What a report with Assessments mentions (the test suite checks
    it for one report): the rendered text contains "Action filter:" and,
    for every Assessment given, the topic, company, source and URL of its
    observation and its reason. *)
Theorem report_mentions (now : string) (assessments : list Assessment.t)
    (a : Assessment.t) (Ha : In a assessments) :
  let report := render_report now assessments in
  let obs := Assessment.observation a in
  Text.contains "Action filter:" report = true
  /\ Text.contains (Observation.topic obs) report = true
  /\ Text.contains (Observation.company obs) report = true
  /\ Text.contains (Observation.source obs) report = true
  /\ Text.contains (Observation.url obs) report = true
  /\ Text.contains (Assessment.reason a) report = true.
Proof.
  intros report obs.
  assert (Hl : assessments <> []) by (intros ->; contradiction).
  assert (Hlines : forall line x,
             In line (report_lines now assessments) -> occurs_in x line ->
             Text.contains x report = true).
  { intros line x Hin Hx. apply contains_occurs.
    eapply occurs_in_trans; [exact Hx |].
    apply occurs_in_join, Hin. }
  destruct (extend_items_In 1 assessments a Ha) as (i & Hi).
  assert (Hitem : incl (item_lines i a) (report_lines now assessments)).
  { rewrite (report_lines_nonempty now assessments Hl).
    intros line Hline. apply in_or_app. right. apply in_or_app. left.
    apply Hi, Hline. }
  split.
  { apply (Hlines "Action filter:"); [| apply occurs_in_refl].
    rewrite (report_lines_nonempty now assessments Hl).
    apply in_or_app. right. apply in_or_app. right. simpl. auto. }
  repeat split.
  - eapply Hlines; [apply Hitem; left; reflexivity |].
    fold obs. do 2 apply occurs_in_app_r. apply occurs_in_head.
  - eapply Hlines; [apply Hitem; left; reflexivity |].
    fold obs. do 4 apply occurs_in_app_r. apply occurs_in_head.
  - eapply Hlines; [apply Hitem; right; right; left; reflexivity |].
    fold obs. apply occurs_in_app_r, occurs_in_head.
  - eapply Hlines; [apply Hitem; right; right; left; reflexivity |].
    fold obs. do 3 apply occurs_in_app_r. apply occurs_in_head.
  - eapply Hlines; [apply Hitem; right; left; reflexivity |].
    apply occurs_in_app_r, occurs_in_head.
Qed.

Lemma report_mentions_witness :
  Text.contains "ABB"
    (render_report "2026-01-01 09:00 UTC"
       [ Assessment.mk
           (Observation.mk "Robotics" "ABB" "Bloomberg"
              "https://www.bloomberg.com/example"
              "ABB expands robotics production ramp with government award.")
           "positive" 4%Z "positive cues: expands" ])
  = true.
Proof.
  match goal with
  | |- Text.contains _ (render_report ?now [?a]) = true =>
      exact (proj1 (proj2 (proj2
               (report_mentions now [a] a (or_introl eq_refl)))))
  end.
Defined.

(** X11.  The report of [analyze].  For no observation it is the header
    and "No observations supplied.".  Otherwise it has three lines per
    observation between header and action filter, and the first line of
    the block at position [k] shows the number [k + 1], the topic and
    company of the Assessment ranked at [k], one of the labels POSITIVE,
    NEGATIVE and MIXED/UNCLEAR, and a signal of one digit from 0 to 5. *)
Theorem analyze_report (it : iteration) (now : string)
    (observations : list Observation.t) :
  let ranked := assess it observations in
  let lines := report_lines now ranked in
  analyze it now observations = Text.join Format.newline lines
  /\ (observations = [] ->
      lines = (report_header now ++ ["No observations supplied."])%list)
  /\ (observations <> [] ->
      length lines = (8 + 3 * length observations)%nat)
  /\ (forall k a,
         nth_error ranked k = Some a ->
         exists label digit,
           In label ["POSITIVE"; "NEGATIVE"; "MIXED/UNCLEAR"]
           /\ In digit ["0"; "1"; "2"; "3"; "4"; "5"]
           /\ nth_error lines (4 + 3 * k)
              = Some (Format.decimal (Z.of_nat k + 1) ++ ". ["
                        ++ Observation.topic (Assessment.observation a) ++ "] "
                        ++ Observation.company (Assessment.observation a)
                        ++ " -> " ++ label
                        ++ " (signal " ++ digit ++ "/5)")).
Proof.
  intros ranked lines.
  assert (Hlen : length ranked = length observations).
  { unfold ranked. rewrite (Permutation_length (assess_perm it observations)).
    apply length_map. }
  split; [reflexivity |]. split; [intros ->; reflexivity |]. split.
  - intros Hne.
    assert (Hr : ranked <> [])
      by (intros E; rewrite E in Hlen; destruct observations;
          [contradiction | discriminate Hlen]).
    unfold lines. rewrite (report_lines_nonempty now ranked Hr).
    rewrite !length_app, extend_items_length, Hlen. simpl. lia.
  - intros k a Hk.
    assert (Ha : In a (assess it observations))
      by (eapply nth_error_In; exact Hk).
    destruct (assess_In it observations a Ha) as (obs & _ & Ea).
    destruct (assess_one_range it obs) as (Hlabel & Hscore).
    rewrite <- Ea in Hlabel, Hscore.
    exists (Format.upper (Assessment.impact a)),
           (Format.decimal (Assessment.signal_score a)).
    split; [| split].
    + destruct Hlabel as [<- | [<- | [<- | []]]]; vm_compute; auto.
    + assert (Hz : Assessment.signal_score a = 0%Z
                   \/ Assessment.signal_score a = 1%Z
                   \/ Assessment.signal_score a = 2%Z
                   \/ Assessment.signal_score a = 3%Z
                   \/ Assessment.signal_score a = 4%Z
                   \/ Assessment.signal_score a = 5%Z) by lia.
      destruct Hz as [-> | [-> | [-> | [-> | [-> | ->]]]]];
        vm_compute; auto 7.
    + pose proof (report_block now ranked k a Hk) as Hb.
      apply firstn_skipn_nth_error in Hb. apply Hb.
Qed.

(* ================================================================== *)
(** ** Facts about loading                                             *)
(* ================================================================== *)

Section LoadingFacts.

Context {float : Type}.

Implicit Types (members : list (string * Json.value float))
               (row : Json.value float) (obs : Untyped.t float).

Lemma get_In (key : string) members :
  In key (map fst members) <-> exists v, Json.get key members = Some v.
Proof.
  induction members as [| [k v] members IH]; simpl.
  - split; [contradiction | intros [v H]; discriminate H].
  - destruct (String.eqb_spec k key) as [-> | Hne].
    + split; [intros _; now exists v | now left].
    + rewrite <- IH. split; [intros [E | H]; [contradiction | exact H] | now right].
Qed.

Lemma known_keys members :
  forallb (fun kv => existsb (String.eqb (fst kv)) FIELDS) members = true
  <-> (forall key, In key (map fst members) -> In key FIELDS).
Proof.
  rewrite forallb_forall. split.
  - intros H key Hin. apply in_map_iff in Hin. destruct Hin as (kv & <- & Hkv).
    specialize (H kv Hkv). apply existsb_exists in H.
    destruct H as (f & Hf & E). apply String.eqb_eq in E. now rewrite E.
  - intros H kv Hkv. apply existsb_exists. exists (fst kv).
    split; [apply H, in_map, Hkv | apply String.eqb_refl].
Qed.

(** [Observation( **row)] succeeds exactly on a mapping whose keys are the
    five fields, and takes the values as they are. *)
Lemma construct_Some row obs :
  construct row = Some obs <->
  exists members,
    row = Json.Obj members
    /\ has_fields members
    /\ Json.get "topic" members = Some (Untyped.topic obs)
    /\ Json.get "company" members = Some (Untyped.company obs)
    /\ Json.get "source" members = Some (Untyped.source obs)
    /\ Json.get "url" members = Some (Untyped.url obs)
    /\ Json.get "summary" members = Some (Untyped.summary obs).
Proof.
  split.
  - destruct row as [| | | | | | members]; try discriminate.
    cbn [construct].
    destruct (forallb _ members) eqn:K; [| discriminate].
    destruct (Json.get "topic" members) as [t |] eqn:Et; [| discriminate].
    destruct (Json.get "company" members) as [c |] eqn:Ec; [| discriminate].
    destruct (Json.get "source" members) as [s |] eqn:Es; [| discriminate].
    destruct (Json.get "url" members) as [u |] eqn:Eu; [| discriminate].
    destruct (Json.get "summary" members) as [y |] eqn:Ey; [| discriminate].
    intros [= <-]. exists members. cbn.
    repeat split; auto.
    + now apply known_keys.
    + intros Hf. apply get_In.
      destruct Hf as [<- | [<- | [<- | [<- | [<- | []]]]]]; eauto.
  - intros (members & -> & Hf & Et & Ec & Es & Eu & Ey).
    cbn [construct].
    assert (K : forallb (fun kv => existsb (String.eqb (fst kv)) FIELDS)
                  members = true)
      by (apply known_keys; intros key; apply Hf).
    rewrite K, Et, Ec, Es, Eu, Ey. now destruct obs.
Qed.

Lemma construct_None row :
  construct row = None <->
  (forall members, row = Json.Obj members -> ~ has_fields members).
Proof.
  split.
  - intros E members -> Hf.
    assert (G : forall key, In key FIELDS ->
                            exists v, Json.get key members = Some v)
      by (intros key Hk; apply get_In, Hf, Hk).
    destruct (G "topic") as (t & Et); [simpl; auto |].
    destruct (G "company") as (c & Ec); [simpl; auto |].
    destruct (G "source") as (s & Es); [simpl; auto |].
    destruct (G "url") as (u & Eu); [simpl; auto |].
    destruct (G "summary") as (y & Ey); [simpl; auto 6 |].
    assert (S : construct (Json.Obj members) = Some (Untyped.mk t c s u y))
      by (apply construct_Some; exists members; cbn; auto 10).
    congruence.
  - intros H. destruct (construct row) as [obs |] eqn:E; [| reflexivity].
    apply construct_Some in E. destruct E as (members & -> & Hf & _).
    exfalso. exact (H members eq_refl Hf).
Qed.

Lemma construct_all_Some (rows : list (Json.value float))
    (loaded : list (Untyped.t float)) :
  construct_all rows = Some loaded <->
  Forall2 (fun row obs => construct row = Some obs) rows loaded.
Proof.
  revert loaded. induction rows as [| row rows IH]; intros loaded; simpl.
  - split; [intros [= <-]; constructor | intros H; inversion H; reflexivity].
  - split.
    + destruct (construct row) as [obs |] eqn:E; [| discriminate].
      destruct (construct_all rows) as [others |]; [| discriminate].
      intros [= <-]. constructor; [exact E | now apply IH].
    + intros H. inversion H as [| ? obs ? others E Hrest]; subst.
      rewrite E. apply IH in Hrest. now rewrite Hrest.
Qed.

Lemma construct_all_None (rows : list (Json.value float)) :
  construct_all rows = None <-> Exists (fun row => construct row = None) rows.
Proof.
  induction rows as [| row rows IH]; simpl.
  - split; [discriminate | intros H; inversion H].
  - destruct (construct row) as [obs |] eqn:E.
    + destruct (construct_all rows) as [others |].
      * split; [discriminate |].
        intros H. inversion H as [? ? Hr | ? ? Hr]; subst;
          [congruence | apply IH in Hr; discriminate Hr].
      * split; [intros _; apply Exists_cons_tl, IH; reflexivity | reflexivity].
    + split; [intros _; now apply Exists_cons_hd | reflexivity].
Qed.

End LoadingFacts.

(* ================================================================== *)
(** ** Further properties: loading                                     *)
(* ================================================================== *)

(** X12.  Loading a JSON array.  It succeeds exactly when every row is an
    object whose keys are the five field names, no more and no fewer; the
    result then has one record per row, in the order of the rows, with the
    values of the row as they are, of whatever JSON type.  One row that is
    not such an object fails the whole load. *)
Theorem load_observations_array {float : Type}
    (rows : list (Json.value float)) :
  (forall loaded,
      load_observations (Json.Arr rows) = Some loaded <->
      Forall2 (fun row obs =>
                 exists members,
                   row = Json.Obj members
                   /\ has_fields members
                   /\ Json.get "topic" members = Some (Untyped.topic obs)
                   /\ Json.get "company" members = Some (Untyped.company obs)
                   /\ Json.get "source" members = Some (Untyped.source obs)
                   /\ Json.get "url" members = Some (Untyped.url obs)
                   /\ Json.get "summary" members = Some (Untyped.summary obs))
        rows loaded)
  /\ (load_observations (Json.Arr rows) = None <->
      Exists (fun row =>
                forall members, row = Json.Obj members -> ~ has_fields members)
        rows).
Proof.
  cbn [load_observations rows_of]. split.
  - intros loaded. rewrite construct_all_Some.
    split; intros H; (eapply Forall2_impl; [| exact H]);
      intros row obs; apply construct_Some.
  - rewrite construct_all_None.
    split; intros H; (eapply Exists_impl; [| exact H]);
      intros row; apply construct_None.
Qed.

(** A row whose values are not strings loads all the same. *)
Example load_observations_untyped :
  load_observations (float := unit)
    (Json.Arr
       [ Json.Obj [ ("summary", Json.Null); ("url", Json.Int 7);
                    ("topic", Json.Bool true); ("company", Json.Arr []);
                    ("source", Json.Float tt) ] ])
  = Some [ Untyped.mk (Json.Bool true) (Json.Arr []) (Json.Float tt)
             (Json.Int 7) Json.Null ].
Proof. reflexivity. Qed.


(** X14.  A payload that is not an array.  The empty object and the empty
    string load to no observation at all; every other object or string,
    and every number, boolean and null, fails. *)
Theorem load_observations_not_array {float : Type}
    (payload : Json.value float) :
  match payload with
  | Json.Arr _ => True
  | Json.Obj [] => load_observations payload = Some []
  | Json.Str EmptyString => load_observations payload = Some []
  | _ => load_observations payload = None
  end.
Proof.
  destruct payload as [| b | n | x | [| c s] | items | [| [k v] members]];
    try reflexivity; exact I.
Qed.

(* ================================================================== *)
(** ** Facts about the todo store                                      *)
(* ================================================================== *)

Section TodoFacts.

Context {float : Type}.

Implicit Types (st : Todo.store float) (todo : Todo.item)
               (todos : list Todo.item).

Lemma fold_max_ge (others : list Z) (first : Z) :
  (first <= fold_left Z.max others first)%Z
  /\ Forall (fun z => (z <= fold_left Z.max others first)%Z) others.
Proof.
  revert first. induction others as [| z others IH]; intros first; simpl.
  - split; [lia | constructor].
  - destruct (IH (Z.max first z)) as [H1 H2].
    split; [lia |]. constructor; [lia | exact H2].
Qed.

(** The next id is above every id in the store. *)
Lemma next_id_above st todo :
  In todo (Todo.items st) -> (Todo.id todo < Todo.next_id st)%Z.
Proof.
  intros Hin. apply (in_map Todo.id) in Hin.
  unfold Todo.next_id.
  destruct (map Todo.id (Todo.items st)) as [| first others];
    [contradiction |].
  destruct (fold_max_ge others first) as [H1 H2].
  destruct Hin as [<- | Hin]; [lia |].
  rewrite Forall_forall in H2. specialize (H2 _ Hin). lia.
Qed.

Lemma find_Some (item_id : Z) todos todo :
  Todo.find item_id todos = Some todo ->
  In todo todos /\ Todo.id todo = item_id.
Proof.
  induction todos as [| other todos IH]; simpl; [discriminate |].
  destruct (Z.eqb_spec (Todo.id other) item_id) as [E | _].
  - intros [= <-]. auto.
  - intros H. destruct (IH H). auto.
Qed.

Lemma find_None (item_id : Z) todos :
  Todo.find item_id todos = None <-> ~ In item_id (map Todo.id todos).
Proof.
  induction todos as [| other todos IH]; simpl; [tauto |].
  destruct (Z.eqb_spec (Todo.id other) item_id) as [E | Hne].
  - split; [discriminate | intros H; exfalso; apply H; now left].
  - rewrite IH. tauto.
Qed.

Lemma mark_done_ids (item_id : Z) todos :
  map Todo.id (Todo.mark_done item_id todos) = map Todo.id todos.
Proof.
  induction todos as [| other todos IH]; simpl; [reflexivity |].
  destruct (Todo.id other =? item_id)%Z; simpl; congruence.
Qed.

Lemma find_mark_done_same (item_id : Z) todos todo :
  Todo.find item_id todos = Some todo ->
  Todo.find item_id (Todo.mark_done item_id todos)
  = Some (Todo.mk_item (Todo.id todo) (Todo.title todo) true).
Proof.
  induction todos as [| other todos IH]; simpl; [discriminate |].
  destruct (Z.eqb_spec (Todo.id other) item_id) as [E | Hne]; simpl.
  - intros [= <-]. rewrite E, Z.eqb_refl. reflexivity.
  - intros H. apply Z.eqb_neq in Hne. rewrite Hne. auto.
Qed.

Lemma find_mark_done_other (item_id other_id : Z) todos :
  other_id <> item_id ->
  Todo.find other_id (Todo.mark_done item_id todos) = Todo.find other_id todos.
Proof.
  intros Hne. induction todos as [| other todos IH]; simpl; [reflexivity |].
  destruct (Z.eqb_spec (Todo.id other) item_id) as [E | Hne']; simpl.
  - rewrite E. apply Z.eqb_neq in Hne. rewrite Z.eqb_sym in Hne.
    now rewrite Hne.
  - destruct (Todo.id other =? other_id)%Z; [reflexivity | exact IH].
Qed.

Lemma find_filter_other (item_id other_id : Z) todos :
  other_id <> item_id ->
  Todo.find other_id
    (filter (fun other => negb (Todo.id other =? item_id)%Z) todos)
  = Todo.find other_id todos.
Proof.
  intros Hne. induction todos as [| other todos IH]; simpl; [reflexivity |].
  destruct (Z.eqb_spec (Todo.id other) item_id) as [E | Hne']; simpl.
  - rewrite E. apply Z.eqb_neq in Hne. rewrite Z.eqb_sym in Hne.
    now rewrite Hne.
  - destruct (Todo.id other =? other_id)%Z; [reflexivity | exact IH].
Qed.

Lemma filter_ids_absent (item_id : Z) todos :
  ~ In item_id
      (map Todo.id
         (filter (fun other => negb (Todo.id other =? item_id)%Z) todos)).
Proof.
  intros H. apply in_map_iff in H. destruct H as (other & E & Hin).
  apply filter_In in Hin. destruct Hin as [_ Hin].
  rewrite E, Z.eqb_refl in Hin. discriminate Hin.
Qed.

Lemma filter_ids_NoDup (item_id : Z) todos :
  NoDup (map Todo.id todos) ->
  NoDup (map Todo.id
           (filter (fun other => negb (Todo.id other =? item_id)%Z) todos)).
Proof.
  induction todos as [| other todos IH]; simpl; [trivial |].
  intros H. apply NoDup_cons_iff in H. destruct H as [Hn Hd].
  destruct (negb (Todo.id other =? item_id)%Z); simpl; [| auto].
  constructor; [| auto].
  intros Hin. apply Hn. apply in_map_iff in Hin.
  destruct Hin as (x & E & Hx). apply filter_In in Hx.
  apply in_map_iff. exists x. tauto.
Qed.

Lemma filter_absent_id (item_id : Z) todos :
  ~ In item_id (map Todo.id todos) ->
  filter (fun other => negb (Todo.id other =? item_id)%Z) todos = todos.
Proof.
  induction todos as [| other todos IH]; simpl; [reflexivity |].
  intros H.
  destruct (Z.eqb_spec (Todo.id other) item_id) as [E | Hne]; simpl.
  - exfalso. apply H. now left.
  - f_equal. apply IH. tauto.
Qed.

Lemma blank_of_lstrip (s : string) :
  blank (Text.lstrip s) = true -> blank s = true.
Proof.
  induction s as [| c s IH]; simpl; [trivial |].
  destruct (Text.is_space c) eqn:E; simpl; [exact IH |].
  rewrite E. discriminate.
Qed.

Lemma strip_empty (s : string) : Text.strip s = "" <-> blank s = true.
Proof.
  unfold Text.strip. rewrite <- blank_rstrip. split.
  - apply blank_of_lstrip.
  - intros H. now rewrite (blank_lstrip s H).
Qed.

Lemma insert_by_id_perm todo todos :
  Permutation (Todo.insert_by_id todo todos) (todo :: todos).
Proof.
  induction todos as [| other todos IH]; simpl; [apply Permutation_refl |].
  destruct (Todo.id other <? Todo.id todo)%Z; [| apply Permutation_refl].
  eapply perm_trans; [apply perm_skip, IH | apply perm_swap].
Qed.

Lemma insert_by_id_sorted todo todos :
  StronglySorted (fun a b => (Todo.id a <= Todo.id b)%Z) todos ->
  StronglySorted (fun a b => (Todo.id a <= Todo.id b)%Z)
    (Todo.insert_by_id todo todos).
Proof.
  induction 1 as [| other todos Hs IH Ho]; simpl.
  - repeat constructor.
  - destruct (Z.ltb_spec (Todo.id other) (Todo.id todo)) as [L | L].
    + constructor; [exact IH |].
      eapply Permutation_Forall;
        [apply Permutation_sym, insert_by_id_perm |].
      constructor; [lia | exact Ho].
    + constructor; [now constructor |].
      constructor; [exact L |].
      eapply Forall_impl; [| exact Ho]. intros b Hb. simpl in *. lia.
Qed.

Lemma insert_by_id_filter (item_id : Z) todo todos :
  filter (fun t => (Todo.id t =? item_id)%Z) (Todo.insert_by_id todo todos)
  = filter (fun t => (Todo.id t =? item_id)%Z) (todo :: todos).
Proof.
  induction todos as [| other todos IH]; [reflexivity |].
  cbn [Todo.insert_by_id].
  destruct (Z.ltb_spec (Todo.id other) (Todo.id todo)) as [L | L];
    [| reflexivity].
  cbn [filter] in *. rewrite IH.
  destruct (Z.eqb_spec (Todo.id todo) item_id),
           (Z.eqb_spec (Todo.id other) item_id); try reflexivity.
  lia.
Qed.

Lemma construct_items_as_loaded todos :
  Todo.construct_items (float := float) (map Todo.asdict todos)
  = Some (map Todo.as_loaded todos).
Proof.
  induction todos as [| todo todos IH]; [reflexivity |].
  cbn [map Todo.construct_items].
  change (Todo.construct_item (float := float) (Todo.asdict todo))
    with (Some (Todo.as_loaded (float := float) todo)).
  now rewrite IH.
Qed.

End TodoFacts.

(* ================================================================== *)
(** ** Further properties: the todo store                              *)
(* ================================================================== *)

(** X15.  [add] with a title that is not blank appends one item at the
    end of the list: its id is above every id already in the store, its
    title is the stripped title, it is not done; the other items are
    untouched and the file is rewritten with the new list. *)
Theorem add_appends_fresh {float : Type} (new_title : string)
    (st st' : Todo.store float) (todo : Todo.item)
    (Hadd : Todo.add new_title st = inr (todo, st')) :
  Todo.items st' = (Todo.items st ++ [todo])%list
  /\ Forall (fun old => (Todo.id old < Todo.id todo)%Z) (Todo.items st)
  /\ (Todo.items st = [] -> Todo.id todo = 1%Z)
  /\ Todo.title todo = Text.strip new_title
  /\ Todo.title todo <> ""
  /\ Todo.done todo = false
  /\ Todo.synced st'.
Proof.
  unfold Todo.add in Hadd.
  destruct (Text.strip new_title) as [| c rest] eqn:E; [discriminate |].
  injection Hadd as <- <-. cbn.
  repeat split; try discriminate.
  - apply Forall_forall. intros old Hold. now apply next_id_above.
  - intros Hempty. unfold Todo.next_id. rewrite Hempty. reflexivity.
Qed.

Lemma add_appends_fresh_witness :
  match Todo.add (float := unit) " Write code "
          (Todo.mk_store [Todo.mk_item 4 "Buy milk" true] None) with
  | inr (todo, st') =>
      Todo.items st' = [Todo.mk_item 4 "Buy milk" true; todo]
      /\ Todo.title todo = "Write code"
  | inl _ => False
  end.
Proof.
  destruct (Todo.add (float := unit) " Write code "
              (Todo.mk_store [Todo.mk_item 4 "Buy milk" true] None))
    as [e | [todo st']] eqn:E; [cbv in E; discriminate E |].
  destruct (add_appends_fresh _ _ _ _ E) as (Hi & _ & _ & Ht & _).
  split; [exact Hi | exact Ht].
Defined.

(** X16.  [add] raises exactly for the titles that are empty once
    stripped, that is for the blank ones, and then it raises
    [ValueError]. *)
Theorem add_rejects_blank {float : Type} (new_title : string)
    (st : Todo.store float) :
  (Todo.add new_title st = inl Todo.ValueError <-> blank new_title = true)
  /\ Todo.add new_title st <> inl Todo.KeyError.
Proof.
  rewrite <- strip_empty. unfold Todo.add.
  destruct (Text.strip new_title); split; try discriminate;
    split; try discriminate; reflexivity.
Qed.

(** X17.  [complete] and [delete] raise exactly when no item of the store
    has the id, and then they raise [KeyError]. *)
Theorem missing_id_raises {float : Type} (item_id : Z) (st : Todo.store float) :
  (Todo.complete item_id st = inl Todo.KeyError
   <-> ~ In item_id (map Todo.id (Todo.items st)))
  /\ (Todo.delete item_id st = inl Todo.KeyError
      <-> ~ In item_id (map Todo.id (Todo.items st)))
  /\ Todo.complete item_id st <> inl Todo.ValueError
  /\ Todo.delete item_id st <> inl Todo.ValueError.
Proof.
  unfold Todo.complete, Todo.delete, Todo.get.
  rewrite <- find_None.
  destruct (Todo.find item_id (Todo.items st));
    repeat split; try discriminate; reflexivity.
Qed.

(** X18.  [complete] on an id of the store marks the first item with this
    id as done and returns it; ids, titles and positions of all items stay
    as they are, every other id is looked up as before, and the file is
    rewritten.  Completing the same id again changes nothing. *)
Theorem complete_marks_done {float : Type} (item_id : Z)
    (st st' : Todo.store float) (todo : Todo.item)
    (Hc : Todo.complete item_id st = inr (todo, st')) :
  Todo.id todo = item_id
  /\ Todo.done todo = true
  /\ Todo.get item_id st' = Some todo
  /\ map Todo.id (Todo.items st') = map Todo.id (Todo.items st)
  /\ map Todo.title (Todo.items st') = map Todo.title (Todo.items st)
  /\ (forall other_id, other_id <> item_id ->
        Todo.get other_id st' = Todo.get other_id st)
  /\ Todo.synced st'
  /\ Todo.complete item_id st' = inr (todo, st').
Proof.
  unfold Todo.complete, Todo.get in Hc.
  destruct (Todo.find item_id (Todo.items st)) as [found |] eqn:E;
    [| discriminate].
  injection Hc as <- <-.
  destruct (find_Some _ _ _ E) as [Hin Hid].
  pose proof (find_mark_done_same _ _ _ E) as Hsame.
  assert (Hidem : forall todos,
             Todo.find item_id todos
             = Some (Todo.mk_item (Todo.id found) (Todo.title found) true) ->
             Todo.mark_done item_id todos = todos).
  { induction todos as [| other todos IH]; simpl; [reflexivity |].
    destruct (Todo.id other =? item_id)%Z.
    - intros [= ->]. reflexivity.
    - intros H. f_equal. auto. }
  cbn. repeat split; auto.
  - apply mark_done_ids.
  - clear. induction (Todo.items st) as [| other todos IH]; simpl;
      [reflexivity |].
    destruct (Todo.id other =? item_id)%Z; simpl; congruence.
  - intros other_id Hne. unfold Todo.get. cbn.
    now apply find_mark_done_other.
  - unfold Todo.complete, Todo.get. cbn. rewrite Hsame. cbn.
    rewrite (Hidem _ Hsame). reflexivity.
Qed.

Lemma complete_marks_done_witness :
  match Todo.complete (float := unit) 2
          (Todo.mk_store [Todo.mk_item 1 "a" false; Todo.mk_item 2 "b" false]
             None) with
  | inr (todo, st') => Todo.done todo = true /\ Todo.get 2 st' = Some todo
  | inl _ => False
  end.
Proof.
  destruct (Todo.complete (float := unit) 2
              (Todo.mk_store
                 [Todo.mk_item 1 "a" false; Todo.mk_item 2 "b" false] None))
    as [e | [todo st']] eqn:E; [cbv in E; discriminate E |].
  destruct (complete_marks_done _ _ _ _ E) as (_ & Hd & Hg & _).
  split; [exact Hd | exact Hg].
Defined.

(** X19.  [delete] on an id of the store returns the first item with this
    id and removes every item with this id; afterwards the id is not in
    the store, a second [delete] raises [KeyError], the remaining items
    keep their order, every other id is looked up as before, and the file
    is rewritten. *)
Theorem delete_removes {float : Type} (item_id : Z)
    (st st' : Todo.store float) (todo : Todo.item)
    (Hd : Todo.delete item_id st = inr (todo, st')) :
  Todo.get item_id st = Some todo
  /\ Todo.id todo = item_id
  /\ Todo.items st'
     = filter (fun other => negb (Todo.id other =? item_id)%Z) (Todo.items st)
  /\ ~ In item_id (map Todo.id (Todo.items st'))
  /\ Todo.get item_id st' = None
  /\ Todo.delete item_id st' = inl Todo.KeyError
  /\ (forall other_id, other_id <> item_id ->
        Todo.get other_id st' = Todo.get other_id st)
  /\ Todo.synced st'.
Proof.
  unfold Todo.delete in Hd.
  destruct (Todo.get item_id st) as [found |] eqn:E; [| discriminate].
  injection Hd as <- <-.
  destruct (find_Some _ _ _ E) as [Hin Hid].
  assert (Habs : Todo.find item_id
                   (filter (fun other => negb (Todo.id other =? item_id)%Z)
                      (Todo.items st)) = None)
    by apply find_None, filter_ids_absent.
  cbn. repeat split; auto.
  - apply filter_ids_absent.
  - unfold Todo.delete, Todo.get. cbn. now rewrite Habs.
  - intros other_id Hne. unfold Todo.get. cbn.
    now apply find_filter_other.
Qed.

Lemma delete_removes_witness :
  match Todo.delete (float := unit) 2
          (Todo.mk_store
             [Todo.mk_item 2 "b" false; Todo.mk_item 1 "a" false;
              Todo.mk_item 2 "c" true] None) with
  | inr (todo, st') =>
      Todo.items st' = [Todo.mk_item 1 "a" false] /\ Todo.get 2 st' = None
  | inl _ => False
  end.
Proof.
  destruct (Todo.delete (float := unit) 2
              (Todo.mk_store
                 [Todo.mk_item 2 "b" false; Todo.mk_item 1 "a" false;
                  Todo.mk_item 2 "c" true] None))
    as [e | [todo st']] eqn:E; [cbv in E; discriminate E |].
  destruct (delete_removes _ _ _ _ E) as (_ & _ & Hi & _ & Hg & _).
  split; [exact Hi | exact Hg].
Defined.

(** X20.  [list_items] returns the items of the store in ascending order
    of id, each exactly once, items with the same id in the order of the
    store. *)
Theorem list_items_sorted {float : Type} (st : Todo.store float) :
  StronglySorted (fun a b => (Todo.id a <= Todo.id b)%Z) (Todo.list_items st)
  /\ Permutation (Todo.list_items st) (Todo.items st)
  /\ (forall item_id,
         filter (fun t => (Todo.id t =? item_id)%Z) (Todo.list_items st)
         = filter (fun t => (Todo.id t =? item_id)%Z) (Todo.items st)).
Proof.
  unfold Todo.list_items.
  induction (Todo.items st) as [| todo todos (Hs & Hp & Hf)]; simpl.
  - repeat split; constructor.
  - split; [now apply insert_by_id_sorted |]. split.
    + eapply perm_trans; [apply insert_by_id_perm | now apply perm_skip].
    + intros item_id. rewrite insert_by_id_filter. cbn [filter].
      now rewrite Hf.
Qed.

(** X21.  What [save] writes, [load] reads back: the file of a saved store
    loads to the items of the store, with their ids, titles and done flags
    and in their order.  A file that does not exist loads to no item. *)
Theorem save_load_round_trip {float : Type} (st : Todo.store float) :
  Todo.load (Todo.file (Todo.save st))
  = Some (map Todo.as_loaded (Todo.items st))
  /\ Todo.items (Todo.save st) = Todo.items st
  /\ Todo.synced (Todo.save st)
  /\ Todo.load (float := float) None = Some [].
Proof.
  repeat split. cbn. apply construct_items_as_loaded.
Qed.

(** X22.  Ids are reused: when the item that [add] has just created is
    deleted, the next [add] gives its id to the new item. *)
Theorem id_reused_after_delete {float : Type} (title1 title2 : string)
    (st st1 st2 st3 : Todo.store float) (first deleted second : Todo.item)
    (H1 : Todo.add title1 st = inr (first, st1))
    (H2 : Todo.delete (Todo.id first) st1 = inr (deleted, st2))
    (H3 : Todo.add title2 st2 = inr (second, st3)) :
  deleted = first
  /\ Todo.items st2 = Todo.items st
  /\ Todo.id second = Todo.id first.
Proof.
  unfold Todo.add in H1.
  destruct (Text.strip title1) as [| c1 r1]; [discriminate |].
  injection H1 as <- <-.
  set (first := Todo.mk_item (Todo.next_id st) (String c1 r1) false) in *.
  assert (Habs : ~ In (Todo.next_id st) (map Todo.id (Todo.items st))).
  { intros Hin. apply in_map_iff in Hin. destruct Hin as (old & E & Hold).
    pose proof (next_id_above st old Hold). lia. }
  assert (Hfind : Todo.find (Todo.next_id st) (Todo.items st ++ [first])
                  = Some first).
  { apply find_None in Habs. revert Habs. clear.
    induction (Todo.items st) as [| other todos IH]; simpl.
    - intros _. now rewrite Z.eqb_refl.
    - destruct (Todo.id other =? Todo.next_id st)%Z; [discriminate | exact IH]. }
  unfold Todo.delete, Todo.get in H2. cbn in H2.
  rewrite Hfind in H2. injection H2 as <- <-.
  assert (Hitems : filter
                     (fun other => negb (Todo.id other =? Todo.next_id st)%Z)
                     (Todo.items st ++ [first]) = Todo.items st).
  { rewrite filter_app, (filter_absent_id _ _ Habs). cbn.
    rewrite Z.eqb_refl. cbn. apply app_nil_r. }
  unfold Todo.add in H3.
  destruct (Text.strip title2) as [| c2 r2]; [discriminate |].
  injection H3 as <- <-.
  cbn [Todo.items Todo.save Todo.id].
  repeat split; [exact Hitems |].
  unfold first. cbn [Todo.id].
  assert (Hn : forall sa sb : Todo.store float,
             Todo.items sa = Todo.items sb -> Todo.next_id sa = Todo.next_id sb)
    by (intros sa sb Hs; unfold Todo.next_id; now rewrite Hs).
  apply Hn. exact Hitems.
Qed.

Lemma id_reused_after_delete_witness :
  match Todo.add (float := unit) "a"
          (Todo.mk_store [Todo.mk_item 3 "old" false] None) with
  | inr (first, st1) =>
      match Todo.delete (Todo.id first) st1 with
      | inr (deleted, st2) =>
          match Todo.add "b" st2 with
          | inr (second, st3) => Todo.id second = Todo.id first
          | inl _ => False
          end
      | inl _ => False
      end
  | inl _ => False
  end.
Proof.
  destruct (Todo.add (float := unit) "a"
              (Todo.mk_store [Todo.mk_item 3 "old" false] None))
    as [e | [first st1]] eqn:E1; [cbv in E1; discriminate E1 |].
  destruct (Todo.delete (Todo.id first) st1)
    as [e | [deleted st2]] eqn:E2;
    [cbv in E1; injection E1 as <- <-; cbv in E2; discriminate E2 |].
  destruct (Todo.add "b" st2) as [e | [second st3]] eqn:E3.
  - cbv in E1. injection E1 as <- <-. cbv in E2. injection E2 as <- <-.
    cbv in E3. discriminate E3.
  - exact (proj2 (proj2 (id_reused_after_delete _ _ _ _ _ _ _ _ _ E1 E2 E3))).
Defined.

(** X23.  Ids stay distinct: in a store whose items have pairwise distinct
    ids, every successful [add], [complete] and [delete] leaves a store
    whose items have pairwise distinct ids. *)
Theorem ids_stay_distinct {float : Type} (st : Todo.store float)
    (Hd : NoDup (map Todo.id (Todo.items st))) :
  (forall new_title todo st',
      Todo.add new_title st = inr (todo, st') ->
      NoDup (map Todo.id (Todo.items st')))
  /\ (forall item_id todo st',
         Todo.complete item_id st = inr (todo, st') ->
         NoDup (map Todo.id (Todo.items st')))
  /\ (forall item_id todo st',
         Todo.delete item_id st = inr (todo, st') ->
         NoDup (map Todo.id (Todo.items st'))).
Proof.
  split; [| split].
  - intros new_title todo st' H. unfold Todo.add in H.
    destruct (Text.strip new_title); [discriminate |].
    injection H as <- <-. cbn.
    rewrite map_app. cbn.
    assert (Habs : ~ In (Todo.next_id st) (map Todo.id (Todo.items st))).
    { intros Hin. apply in_map_iff in Hin. destruct Hin as (old & E & Hold).
      pose proof (next_id_above st old Hold). lia. }
    eapply Permutation_NoDup;
      [apply Permutation_cons_append | now constructor].
  - intros item_id todo st' H. unfold Todo.complete in H.
    destruct (Todo.get item_id st); [| discriminate].
    injection H as <- <-. cbn. now rewrite mark_done_ids.
  - intros item_id todo st' H. unfold Todo.delete in H.
    destruct (Todo.get item_id st); [| discriminate].
    injection H as <- <-. cbn. now apply filter_ids_NoDup.
Qed.

Lemma ids_stay_distinct_witness :
  match Todo.delete (float := unit) 3
          (Todo.mk_store
             [Todo.mk_item 1 "a" false; Todo.mk_item 3 "c" false;
              Todo.mk_item 2 "b" false] None) with
  | inr (todo, st') => NoDup (map Todo.id (Todo.items st'))
  | inl _ => False
  end.
Proof.
  destruct (Todo.delete (float := unit) 3
              (Todo.mk_store
                 [Todo.mk_item 1 "a" false; Todo.mk_item 3 "c" false;
                  Todo.mk_item 2 "b" false] None))
    as [e | [todo st']] eqn:E; [cbv in E; discriminate E |].
  refine (proj2 (proj2 (ids_stay_distinct _ _)) 3%Z todo st' E).
  repeat constructor; simpl; intuition discriminate.
Defined.
